(** * Underworld2 function-evaluation layer: SafeMaths, At, GradFeVariableFn

    A shallow embedding of the C++ function nodes

      - [Fn::SafeMaths::getFunction]        (Function/src/SafeMaths.cpp)
      - [Fn::At::getFunction]               (Function/src/Unary.cpp)
      - [Fn::GradFeVariableFn::getFunction] (Function/src/GradFeVariableFn.cpp)

    A C++ closure [func] of type [IOsptr -> IOsptr] may throw, may read
    out of bounds, and acts on process-global state (the floating-point
    environment, the mesh and field store).  It is embedded as a function
    into a small state-and-exception monad [M] over a [World]. *)

From Stdlib Require Import ZArith List String Ascii Bool Lia.
From coqutil Require Import Byte Word.LittleEndianList.
Import ListNotations.
Local Open Scope Z_scope.

(** ** Raw object data *)

(** Modelled from the spec: the classes [FunctionIO], [FunctionIOTyped<T>],
    [IO_double], [FEMCoordinate] and [MeshCoordinate] are declared in
    headers (FunctionIO.hpp, FEMCoordinate.hpp, MeshCoordinate.hpp) that are
    not among the sources at hand.  An object is modelled by what the
    sources read from it: its dynamic class, its element type, its
    [IOType] and its raw data. *)

(** [FunctionIO::IOType]. *)
Inductive IOType := Scalar | Vector | SymmetricTensor | Tensor | Array.

(** The element type [T] of a [FunctionIOTyped<T>]; [IO_double] is
    [FunctionIOTyped<double>]. *)
Inductive ElemType := T_double | T_float | T_int | T_unsigned | T_char | T_bool.

Definition sizeof (t : ElemType) : Z :=
  match t with
  | T_double => 8
  | T_float | T_int | T_unsigned => 4
  | T_char | T_bool => 1
  end.

(** The dynamic class of an object handed around as [const FunctionIO*].
    A [FEMCoordinate] carries its mesh, an element index and the local
    coordinate; a [MeshCoordinate] carries its mesh object and a vertex
    index.  Pointers are compared by address only, so a mesh is an address. *)
Inductive IOClass :=
| PlainIO
| FEMCoordinate (mesh : Z) (index : Z) (localCoord : list byte)
| MeshCoordinate (object : Z) (index : Z).

Record FunctionIO := mkIO {
  io_class  : IOClass;
  io_elem   : ElemType;
  io_iotype : IOType;
  dataRaw   : list byte          (* size() * _dataSize bytes *)
}.

Definition _dataSize (io : FunctionIO) : Z := sizeof (io_elem io).

Definition size (io : FunctionIO) : Z :=
  Z.of_nat (List.length (dataRaw io)) / _dataSize io.

(** [dynamic_cast<const IO_double*>]: succeeds on objects whose element
    type is [double], whatever coordinate class they also belong to. *)
Definition dynamic_cast_IO_double (io : FunctionIO) : option FunctionIO :=
  match io_elem io with
  | T_double => Some io
  | _ => None
  end.

(** [dynamic_cast<const FEMCoordinate*>], giving (mesh(), index(), localCoord()->data()). *)
Definition dynamic_cast_FEMCoordinate (io : FunctionIO) : option (Z * Z * list byte) :=
  match io_class io with
  | FEMCoordinate m i xi => Some (m, i, xi)
  | _ => None
  end.

(** [dynamic_cast<const MeshCoordinate*>], giving (object(), index()). *)
Definition dynamic_cast_MeshCoordinate (io : FunctionIO) : option (Z * Z) :=
  match io_class io with
  | MeshCoordinate o i => Some (o, i)
  | _ => None
  end.

(** A double is kept as its 64-bit object representation; [doubles_raw]
    lays a sequence of doubles out in memory (little endian). *)
Definition doubles_raw (l : list Z) : list byte := flat_map (le_split 8) l.

(** [IO_double] holding the given doubles. *)
Definition IO_double (t : IOType) (l : list Z) : FunctionIO :=
  mkIO PlainIO T_double t (doubles_raw l).

(** The bytes [(char* )p + first, (char* )p + last) of a buffer [p], the
    source range of a [std::copy]; [None] when the range is reversed or
    leaves the buffer. *)
Definition byte_range (p : list byte) (first last : Z) : option (list byte) :=
  if (0 <=? first) && (first <=? last) && (last <=? Z.of_nat (List.length p))
  then Some (firstn (Z.to_nat (last - first)) (skipn (Z.to_nat first) p))
  else None.

(** [iodouble->at(ii)]. *)
Definition at_ (io : FunctionIO) (ii : Z) : list byte :=
  firstn 8 (skipn (Z.to_nat (8 * ii)) (dataRaw io)).

(** ** Exceptions and messages *)

(** What is inserted into a [std::stringstream] with [<<], or appended to
    [_pyfnerrorheader] with [+]: text, an unsigned integer, a double. *)
Inductive Piece :=
| Txt (s : string)
| Num (n : Z)
| Dbl (bits : list byte).

Inductive exception :=
| invalid_argument (what : list Piece)
| runtime_error (what : list Piece)
| range_error (what : list Piece).

Definition what (e : exception) : list Piece :=
  match e with
  | invalid_argument m | runtime_error m | range_error m => m
  end.

Definition nl : string := String (ascii_of_nat 10) EmptyString.

(** ** The world a closure runs in *)

(** The floating-point environment [fenv_t]: the raised exception flags
    (a bit mask), the rounding mode and the mask of enabled traps. *)
Record fenv_t := mkFenv {
  excepts  : Z;
  rounding : Z;
  traps    : Z
}.

(** <cfenv> exception macros (x86 values). *)
Definition FE_INVALID   : Z := 1.
Definition FE_DIVBYZERO : Z := 4.
Definition FE_OVERFLOW  : Z := 8.
Definition FE_UNDERFLOW : Z := 16.
Definition FE_INEXACT   : Z := 32.

(** Calls into the mesh and field store (StGermain / StgFEM), logged in
    the order they are made. *)
Inductive ExtCall :=
| FeMesh_GetNodeElements (node : Z)
| Mesh_GetVertex (node : Z)
| FeMesh_CoordGlobalToLocal (el : Z) (global : list byte)
| FeVariable_InterpolateDerivativesToElLocalCoord (el : Z) (xi : list byte)
| FeVariable_InterpolateDerivativesAt (global : list byte).

Record World := mkWorld {
  fpenv : fenv_t;
  calls : list ExtCall           (* most recent call first *)
}.

Definition set_fpenv (e : fenv_t) (w : World) : World :=
  mkWorld e (calls w).

(** Outcome of running C++ code: a value, a thrown exception, or undefined
    behaviour (a read outside a buffer, a failed unchecked cast). *)
Inductive Outcome (A : Type) :=
| Ret (a : A)
| Throw (e : exception)
| Undefined.
Arguments Ret {A} a.
Arguments Throw {A} e.
Arguments Undefined {A}.

Definition M (A : Type) : Type := World -> Outcome A * World.

Definition ret {A} (a : A) : M A := fun w => (Ret a, w).
Definition throw {A} (e : exception) : M A := fun w => (Throw e, w).
Definition undefined {A} : M A := fun w => (Undefined, w).
Definition bind {A B} (m : M A) (k : A -> M B) : M B :=
  fun w =>
    match m w with
    | (Ret a, w') => k a w'
    | (Throw e, w') => (Throw e, w')
    | (Undefined, w') => (Undefined, w')
    end.

Notation "x <- m ;; k" := (bind m (fun x => k))
  (at level 61, m at next level, right associativity).

Definition call (c : ExtCall) : M unit :=
  fun w => (Ret tt, mkWorld (fpenv w) (c :: calls w)).

(** [Fn::Function::func]. *)
Definition func : Type := FunctionIO -> M FunctionIO.

(** ** The mesh and field store *)

(** Modelled from the spec: [InterpolationResult] is declared in StgFEM,
    outside the sources at hand; the spec gives the status of a point
    location as one of Local, Shadow, Outside.  [OUTSIDE] stands for every
    enumerator other than [LOCAL] and [SHADOW]. *)
Inductive InterpolationResult :=
| LOCAL
| SHADOW
| OUTSIDE (code : Z).

Definition InterpolationResult_eqb (a b : InterpolationResult) : bool :=
  match a, b with
  | LOCAL, LOCAL | SHADOW, SHADOW => true
  | OUTSIDE x, OUTSIDE y => x =? y
  | _, _ => false
  end.

(** Modelled from the spec: the structs [FeMesh] and [FeVariable] and the
    primitives working on them belong to StgDomain / StgFEM, outside the
    sources at hand.  A primitive is modelled by the answer the store
    gives: [interpolate(field, elementIndex, localCoord)] and
    [locate(globalCoord)] of the spec, and the element incidence of a node. *)
Record FeMesh := mkFeMesh {
  mesh_addr          : Z;                            (* (void* )feMesh *)
  parentMesh         : Z;                            (* feMesh->parentMesh *)
  nodeElements       : Z -> list Z;                  (* FeMesh_GetNodeElements, in IArray order *)
  vertex             : Z -> list byte;               (* Mesh_GetVertex *)
  coordGlobalToLocal : Z -> list byte -> list byte   (* FeMesh_CoordGlobalToLocal *)
}.

Record FeVariable := mkFeVariable {
  dim                 : Z;
  fieldComponentCount : Z;
  feMesh              : FeMesh;
  (* FeVariable_InterpolateDerivativesToElLocalCoord: the doubles written to the output *)
  interpolateDerivativesToElLocalCoord : Z -> list byte -> list byte;
  (* FeVariable_InterpolateDerivativesAt: the status and the doubles written *)
  interpolateDerivativesAt : list byte -> InterpolationResult * list byte
}.

(** What [Stg_Class_IsInstance( p, FeVariable_Type )] is asked about. *)
Inductive StgObject :=
| Stg_FeVariable (fevar : FeVariable)
| Stg_Other (type : string).

(** ** Function nodes *)

(** The induction principle of a type that holds an [option] of itself. *)
Scheme All for option.

(** A node of the function graph.  [Leaf] is any node whose class is not
    described here, given by its [getFunction].  [_component] is an
    [unsigned]. *)
Inductive Function :=
| Leaf (getFn : FunctionIO -> M func)
| At (_pyfnerrorheader : string) (_fn : option Function) (_component : Z)
| SafeMaths (_pyfnerrorheader : string) (_fn : Function)
| GradFeVariableFn (_pyfnerrorheader : string) (_fevariable : FeVariable).

(** [unsigned] arithmetic. *)
Definition uint (z : Z) : Z := z mod 2 ^ 32.
(** [std::size_t] arithmetic. *)
Definition usize (z : Z) : Z := z mod 2 ^ 64.

(** [a[i]] on an array of known extent; [None] outside of it. *)
Definition index_ {A} (a : list A) (i : Z) : option A :=
  if (0 <=? i) && (i <? Z.of_nat (List.length a))
  then nth_error a (Z.to_nat i)
  else None.

(** *** Fn::At *)

(** The lambda returned by [Fn::At::getFunction]: [_output] is an
    [IO_double(1, Scalar)], and the copied range is as wide as its one
    double whenever [startOffset <= endOffset]. *)
Definition At_lambda (_func : func) (startOffset endOffset : Z) : func :=
  fun input =>
    io <- _func input ;;
    match byte_range (dataRaw io) startOffset endOffset with
    | Some bytes => ret (mkIO PlainIO T_double Scalar bytes)
    | None => undefined
    end.

Definition At_not_double (hdr : string) : exception :=
  invalid_argument
    [Txt hdr; Txt "Argument function is expected to return 'double' type object."].

Definition At_out_of_range (hdr : string) (component sz : Z) : exception :=
  invalid_argument
    [Txt hdr;
     Txt "Trying to extract component "; Num component;
     Txt " from from object with size "; Num sz; Txt ("." ++ nl);
     Txt "Index must be in [0,"; Num (usize (sz - 1)); Txt "]."].

(** The part of [Fn::At::getFunction] after [_func] has been chosen. *)
Definition At_getFunction (hdr : string) (_component : Z) (_func : func)
    (sample_input : FunctionIO) : M func :=
  out <- _func sample_input ;;
  match dynamic_cast_IO_double out with
  | None => throw (At_not_double hdr)
  | Some funcio =>
      if size funcio <=? _component
      then throw (At_out_of_range hdr _component (size funcio))
      else
        let compforLambda := _component in
        let iodatasize := uint (_dataSize funcio) in
        let startOffset := uint (iodatasize * compforLambda) in
        let endOffset := uint (iodatasize * uint (compforLambda + 1)) in
        ret (At_lambda _func startOffset endOffset)
  end.

Section Evaluation.

(** What the C library's [feholdexcept] and [feupdateenv] return on the
    platform at hand: zero if and only if they succeeded. *)
Variable feholdexcept_status : Z.
Variable feupdateenv_status : Z.

(** What a [debug_dynamic_cast] does on an object of another class. *)
Variable failed_cast : option exception.

(** *** Fn::GradFeVariableFn *)

(** [debug_dynamic_cast<T>( input )] is declared outside the sources at
    hand.  On an object of class [T] it is the cast.  What it does on any
    other object is the parameter [failed_cast] of the section: [None] for
    an unchecked cast, whose use has no defined behaviour, [Some e] for a
    checked cast that throws [e]. *)
Definition debug_dynamic_cast {A} (view : FunctionIO -> option A)
    (input : FunctionIO) : M A :=
  match view input with
  | Some a => ret a
  | None =>
      match failed_cast with
      | Some e => throw e
      | None => undefined
      end
  end.

(** [Fn::GradFeVariableFn::GradFeVariableFn( void* fevariable )]. *)
Definition GradFeVariableFn_new (hdr : string) (fevariable : StgObject)
  : Outcome Function :=
  match fevariable with
  | Stg_FeVariable fevar => Ret (GradFeVariableFn hdr fevar)
  | Stg_Other _ =>
      Throw (invalid_argument
               [Txt hdr;
                Txt "Provided variable does not appear to be of 'MeshVariable' type."])
  end.

(** [_output]: an [IO_double( numComponents*fevar->dim, iotype )] that the
    store's interpolation fills. *)
Definition Grad_output (fevar : FeVariable) (data : list byte) : FunctionIO :=
  mkIO PlainIO T_double (if dim fevar =? 1 then Vector else Tensor) data.

(** Lambda for a [FEMCoordinate] input. *)
Definition Grad_lambda_FEMCoordinate (fevar : FeVariable) : func :=
  fun input =>
    femCoord <- debug_dynamic_cast dynamic_cast_FEMCoordinate input ;;
    let '(_, index, localCoord) := femCoord in
    _ <- call (FeVariable_InterpolateDerivativesToElLocalCoord index localCoord) ;;
    ret (Grad_output fevar
           (interpolateDerivativesToElLocalCoord fevar index localCoord)).

(** Lambda for a [MeshCoordinate] input.  The source reads
    [nbrElList[nbrElCount-1]] and calls [Mesh_GetVertex] as arguments of
    one call, in an order the language leaves open; the two orders differ
    only in the calls made before a read outside of an empty list. *)
Definition Grad_lambda_MeshCoordinate (fevar : FeVariable) : func :=
  fun input =>
    meshCoord <- debug_dynamic_cast dynamic_cast_MeshCoordinate input ;;
    let index := snd meshCoord in
    _ <- call (FeMesh_GetNodeElements index) ;;
    let nbrElList := nodeElements (feMesh fevar) index in
    let nbrElCount := uint (Z.of_nat (List.length nbrElList)) in
    match index_ nbrElList (uint (nbrElCount - 1)) with
    | None => undefined
    | Some el =>
        _ <- call (Mesh_GetVertex index) ;;
        _ <- call (FeMesh_CoordGlobalToLocal el (vertex (feMesh fevar) index)) ;;
        let elLocalCoord :=
          coordGlobalToLocal (feMesh fevar) el (vertex (feMesh fevar) index) in
        _ <- call (FeVariable_InterpolateDerivativesToElLocalCoord el elLocalCoord) ;;
        ret (Grad_output fevar
               (interpolateDerivativesToElLocalCoord fevar el elLocalCoord))
    end.

Definition Grad_out_of_domain (hdr : string) (iodouble : FunctionIO) : exception :=
  range_error
    (Txt hdr
     :: Txt "FeVariable derivative interpolation at location ("
     :: Dbl (at_ iodouble 0)
     :: flat_map (fun ii => [Txt ", "; Dbl (at_ iodouble (Z.of_nat ii))])
                 (seq 1 (Z.to_nat (size iodouble) - 1))
     ++ [Txt (") does not appear to be valid." ++ nl
              ++ "Location is probably outside local domain.")]).

(** Lambda for a plain global coordinate. *)
Definition Grad_lambda_global (hdr : string) (fevar : FeVariable) : func :=
  fun input =>
    iodouble <- debug_dynamic_cast dynamic_cast_IO_double input ;;
    _ <- call (FeVariable_InterpolateDerivativesAt (dataRaw iodouble)) ;;
    let '(retval, data) := interpolateDerivativesAt fevar (dataRaw iodouble) in
    if negb (InterpolationResult_eqb retval LOCAL
             || InterpolationResult_eqb retval SHADOW)
    then throw (Grad_out_of_domain hdr iodouble)
    else ret (Grad_output fevar data).

Definition Grad_dim_mismatch (hdr : string) (sz d : Z) : exception :=
  runtime_error
    [Txt hdr;
     Txt "Function input dimensionality ("; Num sz; Txt ") ";
     Txt "does not appear to match mesh variable dimensionality (";
     Num d; Txt ")."].

Definition Grad_incompatible (hdr : string) : exception :=
  invalid_argument
    [Txt hdr;
     Txt "'GradFeVariableFn' does not appear to be compatible with provided input type."].

(** [Fn::GradFeVariableFn::getFunction]: the three probes in the order of
    the source, each falling through to the next. *)
Definition GradFeVariableFn_getFunction (hdr : string) (fevar : FeVariable)
    (sample_input : FunctionIO) : M func :=
  let try_global : M func :=
    match dynamic_cast_IO_double sample_input with
    | Some iodouble =>
        if negb (size iodouble =? dim fevar)
        then throw (Grad_dim_mismatch hdr (size iodouble) (dim fevar))
        else ret (Grad_lambda_global hdr fevar)
    | None => throw (Grad_incompatible hdr)
    end in
  let try_meshCoord : M func :=
    match dynamic_cast_MeshCoordinate sample_input with
    | Some (object, _) =>
        if object =? mesh_addr (feMesh fevar)
        then ret (Grad_lambda_MeshCoordinate fevar)
        else try_global
    | None => try_global
    end in
  match dynamic_cast_FEMCoordinate sample_input with
  | Some (mesh, _, _) =>
      if mesh =? parentMesh (feMesh fevar)
      then ret (Grad_lambda_FEMCoordinate fevar)
      else try_meshCoord
  | None => try_meshCoord
  end.

(** *** Fn::SafeMaths and the dispatch of getFunction *)

(** [std::feholdexcept( &envp )] (C11 7.6.4.2): saves the current
    environment in [envp], clears the exception flags and installs
    non-stop mode.  Gives the return value and [envp]. *)
Definition feholdexcept : M (Z * fenv_t) :=
  fun w =>
    let envp := fpenv w in
    if feholdexcept_status =? 0
    then (Ret (0, envp), set_fpenv (mkFenv 0 (rounding envp) 0) w)
    else (Ret (feholdexcept_status, envp), w).

(** [std::fetestexcept( mask )] (C11 7.6.2.5). *)
Definition fetestexcept (mask : Z) : M Z :=
  fun w => (Ret (Z.land (excepts (fpenv w)) mask), w).

(** [std::feupdateenv( &envp )] (C11 7.6.4.4): saves the currently raised
    exceptions, installs the environment [envp], and then raises the
    saved exceptions.  Raising a saved exception whose trap is enabled in
    [envp] delivers SIGFPE instead of returning; that case is not
    modelled, and the properties that reach it are stated for saved
    exceptions whose traps are disabled in [envp]. *)
Definition feupdateenv (envp : fenv_t) : M Z :=
  fun w =>
    if feupdateenv_status =? 0
    then
      let saved := excepts (fpenv w) in
      (Ret 0,
       set_fpenv (mkFenv (Z.lor (excepts envp) saved) (rounding envp) (traps envp)) w)
    else (Ret feupdateenv_status, w).

Definition SafeMaths_unknown (hdr : string) : exception :=
  runtime_error [Txt hdr; Txt "Unknown error. Please contact developers."].

Definition SafeMaths_guarded : Z :=
  Z.lor (Z.lor (Z.lor FE_DIVBYZERO FE_INVALID) FE_OVERFLOW) FE_UNDERFLOW.

Definition SafeMaths_banner : Piece :=
  Txt ("Floating point exception(s) encountered while evaluating SafeMaths argument function:" ++ nl).

(** [if( std::fetestexcept( flag ) ) ss << text;] *)
Definition ss_if_raised (flag : Z) (text : string) (ss : list Piece)
  : M (list Piece) :=
  t <- fetestexcept flag ;;
  if negb (t =? 0) then ret (ss ++ [Txt text]) else ret ss.

(** The lambda returned by [Fn::SafeMaths::getFunction].  An exception
    thrown by [_func] leaves the lambda at once, past both
    [feupdateenv] calls. *)
Definition SafeMaths_lambda (hdr : string) (_func : func) : func :=
  fun input =>
    held <- feholdexcept ;;
    let '(notsuccess, envp) := held in
    if negb (notsuccess =? 0) then throw (SafeMaths_unknown hdr) else
    _output <- _func input ;;
    fired <- fetestexcept SafeMaths_guarded ;;
    if negb (fired =? 0)
    then
      ss <- ss_if_raised FE_DIVBYZERO "   Divide by zero" [SafeMaths_banner] ;;
      ss <- ss_if_raised FE_INVALID "   Invalid domain" ss ;;
      ss <- ss_if_raised FE_OVERFLOW "   Value overflow" ss ;;
      ss <- ss_if_raised FE_UNDERFLOW "   Value underflow" ss ;;
      notsuccess <- feupdateenv envp ;;
      if negb (notsuccess =? 0) then throw (SafeMaths_unknown hdr) else
      throw (runtime_error (Txt hdr :: ss))
    else
      notsuccess <- feupdateenv envp ;;
      if negb (notsuccess =? 0) then throw (SafeMaths_unknown hdr) else
      ret _output.

(** [getFunction], dispatched on the class of the node. *)
Fixpoint getFunction (fn : Function) (sample_input : FunctionIO) : M func :=
  match fn with
  | Leaf getFn => getFn sample_input
  | At hdr _fn _component =>
      _func <- match _fn with
               | Some f => getFunction f sample_input
               | None => ret (fun input => ret input)
               end ;;
      At_getFunction hdr _component _func sample_input
  | SafeMaths hdr _fn =>
      _func <- getFunction _fn sample_input ;;
      ret (SafeMaths_lambda hdr _func)
  | GradFeVariableFn hdr fevar =>
      GradFeVariableFn_getFunction hdr fevar sample_input
  end.

End Evaluation.

(** [_func] of [Fn::At::getFunction]: the closure of the argument function,
    or the identity lambda when there is none. *)
Definition At_func (hs us : Z) (dbg : option exception) (_fn : option Function)
    (sample_input : FunctionIO) : M func :=
  match _fn with
  | Some f => getFunction hs us dbg f sample_input
  | None => ret (fun input => ret input)
  end.

(** The two coordinate kinds [Fn::GradFeVariableFn::getFunction] accepts
    before it tries a plain global coordinate. *)
Definition on_parent_mesh (fevar : FeVariable) (io : FunctionIO) : bool :=
  match dynamic_cast_FEMCoordinate io with
  | Some (mesh, _, _) => mesh =? parentMesh (feMesh fevar)
  | None => false
  end.

Definition on_identical_mesh (fevar : FeVariable) (io : FunctionIO) : bool :=
  match dynamic_cast_MeshCoordinate io with
  | Some (object, _) => object =? mesh_addr (feMesh fevar)
  | None => false
  end.

(** Calling a closure on one input after the other, as a caller does that
    keeps the closure and catches what it throws. *)
Fixpoint eval_all (c : func) (inputs : list FunctionIO) (w : World)
  : list (Outcome FunctionIO) * World :=
  match inputs with
  | [] => ([], w)
  | input :: rest =>
      let (r, w1) := c input w in
      let (rs, w2) := eval_all c rest w1 in
      (r :: rs, w2)
  end.

(** The errors of type and shape that the [getFunction]s above throw:
    every [std::invalid_argument], and the dimensionality mismatch of
    [GradFeVariableFn]. *)
Definition validation_error (e : exception) : bool :=
  match e with
  | invalid_argument _ => true
  | runtime_error (_ :: Txt s :: _) =>
      String.eqb s "Function input dimensionality ("
  | _ => false
  end.

Definition ElemType_eqb (a b : ElemType) : bool :=
  match a, b with
  | T_double, T_double | T_float, T_float | T_int, T_int
  | T_unsigned, T_unsigned | T_char, T_char | T_bool, T_bool => true
  | _, _ => false
  end.

Definition IOType_eqb (a b : IOType) : bool :=
  match a, b with
  | Scalar, Scalar | Vector, Vector | SymmetricTensor, SymmetricTensor
  | Tensor, Tensor | Array, Array => true
  | _, _ => false
  end.

Definition same_class (a b : IOClass) : bool :=
  match a, b with
  | PlainIO, PlainIO => true
  | FEMCoordinate _ _ _, FEMCoordinate _ _ _ => true
  | MeshCoordinate _ _, MeshCoordinate _ _ => true
  | _, _ => false
  end.

(** Two objects of one type (class and element type) and one shape
    ([IOType] and size). *)
Definition same_type_shape (a b : FunctionIO) : bool :=
  same_class (io_class a) (io_class b)
  && ElemType_eqb (io_elem a) (io_elem b)
  && IOType_eqb (io_iotype a) (io_iotype b)
  && (Z.of_nat (List.length (dataRaw a)) =? Z.of_nat (List.length (dataRaw b))).

(** A message states a number when the number was inserted into it. *)
Definition states (n : Z) (e : exception) : Prop := In (Num n) (what e).

(** The closures of the [Leaf] nodes of a graph, called on inputs of the
    type and shape of their sample input, throw no error of type or shape
    of their own. *)
Inductive quiet_leaves : Function -> Prop :=
| quiet_Leaf getFn :
    (forall sample w c w1, getFn sample w = (Ret c, w1) ->
       forall input, same_type_shape sample input = true ->
       forall w2 e w3, c input w2 = (Throw e, w3) ->
         validation_error e = false) ->
    quiet_leaves (Leaf getFn)
| quiet_At_input hdr k : quiet_leaves (At hdr None k)
| quiet_At hdr fn k : quiet_leaves fn -> quiet_leaves (At hdr (Some fn) k)
| quiet_SafeMaths hdr fn : quiet_leaves fn -> quiet_leaves (SafeMaths hdr fn)
| quiet_Grad hdr fevar : quiet_leaves (GradFeVariableFn hdr fevar).

(** ** The Stokes solver's inner method *)

Module Stokes.

(** Modelled from the spec: [StokesSolver.set_inner_method] belongs to
    underworld/systems/_bsscr.py, which is not among the sources at hand;
    only its help text is (docs/user_guide/09_StokesSolver.ipynb).  The
    keys are those of the help text; the failures are those of the spec:
    an invalid method name, and a serial-only method requested in a
    multi-process run, both fatal at configure time. *)
Inductive InnerMethod := mg | mumps | superludist | superlu | lu.

Definition method_of_key (solve_type : string) : option InnerMethod :=
  if String.eqb solve_type "mg" then Some mg
  else if String.eqb solve_type "mumps" then Some mumps
  else if String.eqb solve_type "superludist" then Some superludist
  else if String.eqb solve_type "superlu" then Some superlu
  else if String.eqb solve_type "lu" then Some lu
  else None.

Definition serial_only (m : InnerMethod) : bool :=
  match m with
  | superlu | lu => true
  | mg | mumps | superludist => false
  end.

Inductive Kind := Multigrid | SerialDirect | ParallelDirect.

Definition kind (m : InnerMethod) : Kind :=
  match m with
  | mg => Multigrid
  | lu | superlu => SerialDirect
  | mumps | superludist => ParallelDirect
  end.

Inductive ConfigError :=
| InvalidMethod (solve_type : string)
| SerialOnly (m : InnerMethod) (nProcs : Z).

Record StokesSolver := mkSolver {
  inner_method : InnerMethod;
  solves       : Z                 (* solves attempted so far *)
}.

(** Modelled from the spec: configuring the inner method in a run of
    [nProcs] processes. *)
Definition set_inner_method (nProcs : Z) (solve_type : string) (s : StokesSolver)
  : ConfigError + StokesSolver :=
  match method_of_key solve_type with
  | None => inl (InvalidMethod solve_type)
  | Some m =>
      if serial_only m && (1 <? nProcs)
      then inl (SerialOnly m nProcs)
      else inr (mkSolver m (solves s))
  end.

(** Modelled from the spec: [solve()], as far as counting the attempts. *)
Definition solve (s : StokesSolver) : StokesSolver :=
  mkSolver (inner_method s) (solves s + 1).

(** Configure, then solve: a fatal error ends the run at once. *)
Definition configure_and_solve (nProcs : Z) (solve_type : string) (s : StokesSolver)
  : ConfigError + StokesSolver :=
  match set_inner_method nProcs solve_type s with
  | inl e => inl e
  | inr s1 => inr (solve s1)
  end.

End Stokes.

(** The names [Fn::SafeMaths] gives to the raised flags, in the order it
    tests them. *)
Definition fault_names (raised : Z) : list Piece :=
  (if Z.land raised FE_DIVBYZERO =? 0 then [] else [Txt "   Divide by zero"])
  ++ (if Z.land raised FE_INVALID =? 0 then [] else [Txt "   Invalid domain"])
  ++ (if Z.land raised FE_OVERFLOW =? 0 then [] else [Txt "   Value overflow"])
  ++ (if Z.land raised FE_UNDERFLOW =? 0 then [] else [Txt "   Value underflow"]).

(** The environment [feholdexcept] leaves behind: no flag raised, non-stop. *)
Definition held (w : World) : World :=
  set_fpenv (mkFenv 0 (rounding (fpenv w)) 0) w.

(** The environment [feupdateenv( &envp )] leaves behind when [envp] was
    saved in [w] and the code in between ended in [w1]. *)
Definition updated (w w1 : World) : World :=
  set_fpenv (mkFenv (Z.lor (excepts (fpenv w)) (excepts (fpenv w1)))
                    (rounding (fpenv w)) (traps (fpenv w))) w1.

(** An argument function that divides by zero: it returns its input and
    raises FE_DIVBYZERO. *)
Definition divides_by_zero : func :=
  fun input w =>
    (Ret input,
     set_fpenv (mkFenv (Z.lor (excepts (fpenv w)) FE_DIVBYZERO)
                       (rounding (fpenv w)) (traps (fpenv w))) w).


(** The function graph [SafeMaths( f )] where [f] divides by zero. *)
Definition guarded_division_by_zero : Function :=
  SafeMaths "" (Leaf (fun _ => ret divides_by_zero)).

(** An environment with no flag raised, default rounding, non-stop. *)
Definition fresh_world : World := mkWorld (mkFenv 0 0 0) [].

(** The object representation of the double 1.0. *)
Definition one_bits : Z := 0x3FF0000000000000.

(** An array of 2^29 + 1 doubles: 2^29 times 0.0, then 1.0. *)
Definition long_array : FunctionIO :=
  IO_double Array (repeat 0 (Z.to_nat (2 ^ 29)) ++ [one_bits]).

(** The calls a closure adds to the log. *)
Definition logged (cs : list ExtCall) (w : World) : World :=
  mkWorld (fpenv w) (cs ++ calls w).

(** A 2D field on a mesh at address 100 (parent mesh 200) of two elements
    0 and 1 that share the vertices 1 and 4; points with a first coordinate
    byte below 0x80 are found locally. *)
Definition sample_mesh : FeMesh :=
  mkFeMesh 100 200
           (fun node => if (node =? 1) || (node =? 4) then [0; 1] else [0])
           (fun node => doubles_raw [node; 0])
           (fun el global => global).

Definition sample_field : FeVariable :=
  mkFeVariable 2 1 sample_mesh
               (fun el xi => doubles_raw [el; el])
               (fun global =>
                  match global with
                  | b :: _ => if byte.unsigned b <? 128
                              then (LOCAL, doubles_raw [1; 2])
                              else (OUTSIDE 3, [])
                  | [] => (OUTSIDE 3, [])
                  end).

(** ** Further worlds and functions for the properties below *)

(** An argument function that throws and leaves the environment alone. *)
Definition throws_out_of_range : func :=
  fun input => throw (range_error [Txt "out of range"]).

(** An argument function that overflows: it returns its input, raises
    FE_OVERFLOW and FE_INEXACT, and switches the rounding mode to 3072
    (FE_TOWARDZERO). *)
Definition overflows : func :=
  fun input w =>
    (Ret input,
     set_fpenv (mkFenv (Z.lor (excepts (fpenv w)) (Z.lor FE_OVERFLOW FE_INEXACT))
                       3072 (traps (fpenv w))) w).

(** An environment in which FE_INVALID is raised and its trap is enabled. *)
Definition dirty_world : World := mkWorld (mkFenv FE_INVALID 0 FE_INVALID) [].



(** An environment in which FE_INVALID is raised and the trap of
    FE_DIVBYZERO is enabled. *)
Definition trapping_world : World := mkWorld (mkFenv FE_INVALID 0 FE_DIVBYZERO) [].

(** * Properties *)

(** ** SafeMaths *)

Lemma getFunction_SafeMaths hs us dbg hdr fn sample w :
  getFunction hs us dbg (SafeMaths hdr fn) sample w =
  match getFunction hs us dbg fn sample w with
  | (Ret g, w1) => (Ret (SafeMaths_lambda hs us hdr g), w1)
  | (Throw e, w1) => (Throw e, w1)
  | (Undefined, w1) => (Undefined, w1)
  end.
Proof.
  simpl. unfold bind. destruct (getFunction hs us dbg fn sample w) as [[g|e|] w1]; reflexivity.
Qed.

Lemma ss_if_raised_run flag text ss w :
  ss_if_raised flag text ss w =
  (Ret (ss ++ (if Z.land (excepts (fpenv w)) flag =? 0 then [] else [Txt text])), w).
Proof.
  unfold ss_if_raised, bind, fetestexcept.
  destruct (Z.land (excepts (fpenv w)) flag =? 0); simpl; unfold ret.
  - now rewrite app_nil_r.
  - reflexivity.
Qed.

(** What the guard does once the C library calls succeed and the argument
    function has returned. *)
Lemma SafeMaths_lambda_run hdr g input w out w1 :
  g input (held w) = (Ret out, w1) ->
  SafeMaths_lambda 0 0 hdr g input w =
    if Z.land (excepts (fpenv w1)) SafeMaths_guarded =? 0
    then (Ret out, updated w w1)
    else (Throw (runtime_error
                   (Txt hdr :: SafeMaths_banner :: fault_names (excepts (fpenv w1)))),
          updated w w1).
Proof.
  intros Hg.
  unfold SafeMaths_lambda, bind at 1, feholdexcept. simpl.
  fold (held w). unfold bind at 1. rewrite Hg.
  unfold bind at 1, fetestexcept at 1.
  destruct (Z.land (excepts (fpenv w1)) SafeMaths_guarded =? 0) eqn:E; simpl.
  - unfold bind, feupdateenv. simpl. reflexivity.
  - unfold bind at 1. rewrite ss_if_raised_run.
    unfold bind at 1. rewrite ss_if_raised_run.
    unfold bind at 1. rewrite ss_if_raised_run.
    unfold bind at 1. rewrite ss_if_raised_run.
    unfold bind, feupdateenv. simpl. unfold throw, fault_names.
    repeat rewrite <- app_assoc. reflexivity.
Qed.

(** X16.  Let the argument function [fn] of a SafeMaths node give the
    closure [g], let the C library's fenv calls succeed, and let [g], run
    on [input] in the environment the guard hands to it (flags cleared,
    non-stop), return [out] with no floating-point exception flag raised.
    Then the guarded closure returns the very same [out], and the
    floating-point environment after the call is the one before the call.
    When the environment before the call is already clear, the output is
    that of the call of [g] outside of the guard. *)
Theorem SafeMaths_faultfree_transparent hs us dbg hdr fn sample w0 g w1 :
  hs = 0 -> us = 0 ->
  getFunction hs us dbg fn sample w0 = (Ret g, w1) ->
  getFunction hs us dbg (SafeMaths hdr fn) sample w0
    = (Ret (SafeMaths_lambda hs us hdr g), w1)
  /\ forall input w out w',
       g input (held w) = (Ret out, w') ->
       excepts (fpenv w') = 0 ->
       SafeMaths_lambda hs us hdr g input w = (Ret out, set_fpenv (fpenv w) w')
       /\ fpenv (snd (SafeMaths_lambda hs us hdr g input w)) = fpenv w
       /\ (excepts (fpenv w) = 0 -> traps (fpenv w) = 0 ->
           fst (SafeMaths_lambda hs us hdr g input w) = fst (g input w)).
Proof.
  intros -> -> Hfn. split.
  - rewrite getFunction_SafeMaths, Hfn. reflexivity.
  - intros input w out w' Hg Hquiet.
    assert (Hrun : SafeMaths_lambda 0 0 hdr g input w
                   = (Ret out, set_fpenv (fpenv w) w')).
    { rewrite (SafeMaths_lambda_run hdr g input w out w' Hg).
      rewrite Hquiet. simpl. unfold updated. rewrite Hquiet, Z.lor_0_r.
      destruct (fpenv w); reflexivity. }
    rewrite Hrun. repeat split.
    intros He Ht. simpl.
    assert (Hw : held w = w).
    { unfold held, set_fpenv. destruct w as [[e r t] c]. simpl in *. now subst. }
    rewrite Hw in Hg. now rewrite Hg.
Qed.

(** When one of the four guarded flags is raised by the argument function,
    the guard throws the error that names the raised ones; the
    environment it leaves is the saved one with the raised flags set in
    it, as [feupdateenv] installs it. *)
Lemma SafeMaths_fault_reported hdr g input w out w1 :
  g input (held w) = (Ret out, w1) ->
  Z.land (excepts (fpenv w1)) SafeMaths_guarded <> 0 ->
  SafeMaths_lambda 0 0 hdr g input w =
    (Throw (runtime_error
              (Txt hdr :: SafeMaths_banner :: fault_names (excepts (fpenv w1)))),
     updated w w1).
Proof.
  intros Hg Hfired.
  rewrite (SafeMaths_lambda_run hdr g input w out w1 Hg).
  apply Z.eqb_neq in Hfired. now rewrite Hfired.
Qed.

(** A flag outside the four guarded ones does not make the guard throw,
    and [feupdateenv] leaves it raised as well: an argument function that
    raises FE_INEXACT alone returns through the guard into an environment
    with FE_INEXACT raised. *)
Remark SafeMaths_inexact_passes hdr g input w out w1 :
  g input (held w) = (Ret out, w1) ->
  excepts (fpenv w1) = FE_INEXACT ->
  SafeMaths_lambda 0 0 hdr g input w = (Ret out, updated w w1)
  /\ excepts (fpenv (updated w w1)) = Z.lor (excepts (fpenv w)) FE_INEXACT.
Proof.
  intros Hg Hraised.
  rewrite (SafeMaths_lambda_run hdr g input w out w1 Hg), Hraised.
  split; [reflexivity|]. unfold updated. simpl. now rewrite Hraised.
Qed.

(** C2, at a division by zero in an environment with no flag raised.  The
    guard throws the error naming the division by zero, and the
    environment it leaves has FE_DIVBYZERO raised: it is not the
    environment from before the call. *)
Theorem SafeMaths_division_by_zero_stays_raised :
  let input := IO_double Scalar [0] in
  getFunction 0 0 None guarded_division_by_zero input fresh_world
    = (Ret (SafeMaths_lambda 0 0 "" divides_by_zero), fresh_world)
  /\ SafeMaths_lambda 0 0 "" divides_by_zero input fresh_world
     = (Throw (runtime_error [Txt ""; SafeMaths_banner; Txt "   Divide by zero"]),
        mkWorld (mkFenv FE_DIVBYZERO 0 0) [])
  /\ fpenv (snd (SafeMaths_lambda 0 0 "" divides_by_zero input fresh_world))
     <> fpenv fresh_world.
Proof.
  cbv zeta. split; [reflexivity|].
  assert (Hrun : SafeMaths_lambda 0 0 "" divides_by_zero (IO_double Scalar [0]) fresh_world
                 = (Throw (runtime_error [Txt ""; SafeMaths_banner; Txt "   Divide by zero"]),
                    mkWorld (mkFenv FE_DIVBYZERO 0 0) [])).
  { rewrite (SafeMaths_fault_reported "" divides_by_zero (IO_double Scalar [0])
               fresh_world (IO_double Scalar [0])
               (mkWorld (mkFenv FE_DIVBYZERO 0 0) []) eq_refl).
    - reflexivity.
    - vm_compute. discriminate. }
  split; [exact Hrun|].
  rewrite Hrun. simpl. unfold fresh_world. simpl. discriminate.
Qed.

Lemma SafeMaths_faultfree_transparent_witness :
  getFunction 0 0 None (SafeMaths "" (Leaf (fun _ => ret (fun input => ret input))))
              (IO_double Scalar [0]) fresh_world
    = (Ret (SafeMaths_lambda 0 0 "" (fun input => ret input)), fresh_world)
  /\ SafeMaths_lambda 0 0 "" (fun input => ret input) (IO_double Scalar [7])
       (mkWorld (mkFenv FE_INEXACT 0 0) [])
     = (Ret (IO_double Scalar [7]), mkWorld (mkFenv FE_INEXACT 0 0) []).
Proof.
  destruct (SafeMaths_faultfree_transparent 0 0 None "" (Leaf (fun _ => ret (fun input => ret input)))
              (IO_double Scalar [0]) fresh_world (fun input => ret input) fresh_world
              eq_refl eq_refl eq_refl) as [Hget Hcall].
  split; [exact Hget|].
  exact (proj1 (Hcall (IO_double Scalar [7]) (mkWorld (mkFenv FE_INEXACT 0 0) [])
                      (IO_double Scalar [7]) _ eq_refl eq_refl)).
Defined.

(** ** At *)

Lemma getFunction_At hs us dbg hdr _fn k sample w :
  getFunction hs us dbg (At hdr _fn k) sample w
  = (_func <- At_func hs us dbg _fn sample ;; At_getFunction hdr k _func sample) w.
Proof. destruct _fn; reflexivity. Qed.

(** The checks of [Fn::At::getFunction], once [_func] has returned [out]
    on the sample input. *)
Lemma At_getFunction_run hdr k g sample w out w1 :
  g sample w = (Ret out, w1) ->
  At_getFunction hdr k g sample w =
    match io_elem out with
    | T_double =>
        if size out <=? k
        then (Throw (At_out_of_range hdr k (size out)), w1)
        else (Ret (At_lambda g (uint (8 * k)) (uint (8 * uint (k + 1)))), w1)
    | _ => (Throw (At_not_double hdr), w1)
    end.
Proof.
  intros Hg. unfold At_getFunction, bind. rewrite Hg.
  unfold dynamic_cast_IO_double, _dataSize.
  destruct (io_elem out) eqn:E; try reflexivity.
  rewrite E. destruct (size out <=? k); reflexivity.
Qed.

(** C3, as amended.  Let [_func] (the closure of the argument function, or
    the identity) return [out] on the sample input.  If [out] is a double
    object of size [n], getFunction returns the extracting closure when
    [k < n], and throws std::invalid_argument when [n <= k], with a
    message that states both [k] and [n].  If [out] is not a double object,
    getFunction throws std::invalid_argument with the message that a
    'double' type object is expected.  Both errors are the outcome of
    getFunction itself. *)
Theorem At_getFunction_checks hs us dbg hdr _fn k sample w g w1 out w2 :
  At_func hs us dbg _fn sample w = (Ret g, w1) ->
  g sample w1 = (Ret out, w2) ->
  (io_elem out = T_double -> k < size out ->
     getFunction hs us dbg (At hdr _fn k) sample w
     = (Ret (At_lambda g (uint (8 * k)) (uint (8 * uint (k + 1)))), w2))
  /\ (io_elem out = T_double -> size out <= k ->
     getFunction hs us dbg (At hdr _fn k) sample w
     = (Throw (At_out_of_range hdr k (size out)), w2)
     /\ states k (At_out_of_range hdr k (size out))
     /\ states (size out) (At_out_of_range hdr k (size out)))
  /\ (io_elem out <> T_double ->
     getFunction hs us dbg (At hdr _fn k) sample w = (Throw (At_not_double hdr), w2)
     /\ what (At_not_double hdr)
        = [Txt hdr; Txt "Argument function is expected to return 'double' type object."]).
Proof.
  intros Hfn Hg.
  assert (Hrun : getFunction hs us dbg (At hdr _fn k) sample w
                 = At_getFunction hdr k g sample w1).
  { rewrite getFunction_At. unfold bind. now rewrite Hfn. }
  rewrite Hrun, (At_getFunction_run hdr k g sample w1 out w2 Hg).
  repeat split.
  - intros -> Hlt. apply Z.leb_gt in Hlt. now rewrite Hlt.
  - rewrite H. apply Z.leb_le in H0. now rewrite H0.
  - unfold states. simpl. auto.
  - unfold states. simpl. auto 10.
  - destruct (io_elem out); try reflexivity. congruence.
Qed.

Lemma At_getFunction_checks_witness :
  getFunction 0 0 None (At "" None 1) (IO_double Vector [10; 20; 30]) fresh_world
  = (Ret (At_lambda (fun input => ret input) 8 16), fresh_world)
  /\ getFunction 0 0 None (At "" None 3) (IO_double Vector [10; 20; 30]) fresh_world
     = (Throw (At_out_of_range "" 3 3), fresh_world).
Proof.
  pose proof (At_getFunction_checks 0 0 None "" None 1 (IO_double Vector [10; 20; 30])
                fresh_world (fun input => ret input) fresh_world
                (IO_double Vector [10; 20; 30]) fresh_world eq_refl eq_refl) as H1.
  pose proof (At_getFunction_checks 0 0 None "" None 3 (IO_double Vector [10; 20; 30])
                fresh_world (fun input => ret input) fresh_world
                (IO_double Vector [10; 20; 30]) fresh_world eq_refl eq_refl) as H3.
  split.
  - apply (proj1 H1); [reflexivity | vm_compute; reflexivity].
  - apply (proj1 (proj2 H3)); [reflexivity | vm_compute; discriminate].
Defined.

(** C3, as stated, fails for the error about the type: at component 5 of
    an argument holding three ints, getFunction throws the message that a
    'double' type object is expected, which states neither the index 5 nor
    the size 3. *)
Lemma At_type_error_states_no_index :
  let sample := mkIO PlainIO T_int Vector (flat_map (le_split 4) [10; 20; 30]) in
  size sample = 3
  /\ getFunction 0 0 None (At "" None 5) sample fresh_world
     = (Throw (At_not_double ""), fresh_world)
  /\ what (At_not_double "")
     = [Txt ""; Txt "Argument function is expected to return 'double' type object."]
  /\ ~ states 5 (At_not_double "")
  /\ ~ states (size sample) (At_not_double "").
Proof.
  cbv zeta. repeat split.
  - unfold states. simpl. intros [H|[H|[]]]; discriminate.
  - unfold states. simpl. intros [H|[H|[]]]; discriminate.
Qed.

(** *** Doubles in raw memory *)

Lemma doubles_raw_length l :
  List.length (doubles_raw l) = (8 * List.length l)%nat.
Proof.
  induction l as [|x l IH]; [reflexivity|].
  change (doubles_raw (x :: l)) with (le_split 8 x ++ doubles_raw l).
  rewrite length_app, length_le_split, IH. simpl List.length. lia.
Qed.

Lemma firstn_double x rest : firstn 8 (le_split 8 x ++ rest) = le_split 8 x.
Proof.
  rewrite firstn_app, length_le_split. simpl (8 - 8)%nat.
  rewrite firstn_O, app_nil_r.
  apply firstn_all2. rewrite length_le_split. lia.
Qed.

Lemma skipn_doubles_raw n l :
  skipn (8 * n) (doubles_raw l) = doubles_raw (skipn n l).
Proof.
  revert l. induction n as [|n IH]; intros l; [reflexivity|].
  destruct l as [|x l].
  - now rewrite skipn_nil.
  - change (doubles_raw (x :: l)) with (le_split 8 x ++ doubles_raw l).
    replace (8 * S n)%nat with (8 * n + 8)%nat by lia.
    rewrite <- skipn_skipn.
    replace (skipn 8 (le_split 8 x ++ doubles_raw l)) with (doubles_raw l).
    + simpl (skipn (S n) (x :: l)). apply IH.
    + rewrite skipn_app, length_le_split. simpl (8 - 8)%nat.
      rewrite skipn_all2 by (rewrite length_le_split; lia). reflexivity.
Qed.

(** The [k]-th double of an array, read through its raw bytes. *)
Lemma byte_range_double l k :
  0 <= k < Z.of_nat (List.length l) ->
  byte_range (doubles_raw l) (8 * k) (8 * (k + 1))
  = Some (le_split 8 (nth (Z.to_nat k) l 0)).
Proof.
  intros Hk. unfold byte_range.
  rewrite doubles_raw_length.
  replace ((0 <=? 8 * k) && (8 * k <=? 8 * (k + 1))
           && (8 * (k + 1) <=? Z.of_nat (8 * List.length l))) with true
    by (symmetry; rewrite !andb_true_iff, !Z.leb_le; lia).
  replace (Z.to_nat (8 * (k + 1) - 8 * k)) with 8%nat by lia.
  replace (Z.to_nat (8 * k)) with (8 * Z.to_nat k)%nat by lia.
  rewrite skipn_doubles_raw.
  assert (Hn : (Z.to_nat k < List.length l)%nat) by lia.
  revert Hn. generalize (Z.to_nat k). clear Hk k. intros n Hn.
  revert n Hn. induction l as [|x l IH]; intros n Hn; [simpl in Hn; lia|].
  destruct n as [|n].
  - simpl skipn. simpl nth.
    change (doubles_raw (x :: l)) with (le_split 8 x ++ doubles_raw l).
    now rewrite firstn_double.
  - simpl skipn. simpl nth. apply IH. simpl in Hn. lia.
Qed.

(** The range the lambda of [At] copies is one double wide whenever it is
    not reversed, so the copy fills the one double of [_output]. *)
Lemma At_offsets_width k :
  0 <= k < 2 ^ 32 ->
  uint (8 * k) <= uint (8 * uint (k + 1)) ->
  uint (8 * uint (k + 1)) - uint (8 * k) = 8.
Proof.
  unfold uint. intros Hk.
  rewrite Z.mul_mod_idemp_r by lia.
  replace (8 * (k + 1)) with (8 * k + 8) by lia.
  rewrite <- Z.add_mod_idemp_l by lia.
  pose proof (Z.div_mod (8 * k) (2 ^ 32) ltac:(lia)) as Hq.
  pose proof (Z.mod_pos_bound (8 * k) (2 ^ 32) ltac:(lia)) as Hb.
  set (a := (8 * k) mod 2 ^ 32) in *. set (q := 8 * k / 2 ^ 32) in *.
  destruct (Z_lt_dec (a + 8) (2 ^ 32)) as [Hlt | Hge].
  - rewrite Z.mod_small by lia. lia.
  - assert (Ha : a = 2 ^ 32 - 8) by lia.
    rewrite Ha. replace (2 ^ 32 - 8 + 8) with (2 ^ 32) by lia.
    rewrite Z.mod_same by lia. lia.
Qed.

(** Without an argument function, and with byte offsets that fit the
    32 bits they are computed in, the closure of [At] returns the [k]-th
    double of its input. *)
Lemma At_identity_extracts k t l w :
  0 <= k < Z.of_nat (List.length l) ->
  8 * (k + 1) < 2 ^ 32 ->
  At_lambda (fun input => ret input) (uint (8 * k)) (uint (8 * uint (k + 1)))
            (IO_double t l) w
  = (Ret (IO_double Scalar [nth (Z.to_nat k) l 0]), w).
Proof.
  intros Hk Hfit.
  assert (H1 : uint (8 * k) = 8 * k) by (unfold uint; apply Z.mod_small; lia).
  assert (H2 : uint (k + 1) = k + 1) by (unfold uint; apply Z.mod_small; lia).
  assert (H3 : uint (8 * (k + 1)) = 8 * (k + 1)) by (unfold uint; apply Z.mod_small; lia).
  rewrite H1, H2, H3.
  unfold At_lambda, bind, ret.
  change (dataRaw (IO_double t l)) with (doubles_raw l).
  rewrite byte_range_double by exact Hk.
  unfold IO_double.
  change (doubles_raw [nth (Z.to_nat k) l 0])
    with (le_split 8 (nth (Z.to_nat k) l 0) ++ []).
  now rewrite app_nil_r.
Qed.

(** At component 2^29 the byte offsets, computed in [unsigned], wrap to
    0 and 8: on an array of 2^29 + 1 doubles getFunction accepts the
    component, and the closure returns the first double, not the last. *)
Lemma At_offsets_wrap (zs : list Z) (x : Z) (w : World) :
  Z.of_nat (List.length zs) = 2 ^ 29 ->
  size (IO_double Array (zs ++ [x])) = 2 ^ 29 + 1
  /\ getFunction 0 0 None (At "" None (2 ^ 29)) (IO_double Array (zs ++ [x])) w
     = (Ret (At_lambda (fun input => ret input) 0 8), w)
  /\ At_lambda (fun input => ret input) 0 8 (IO_double Array (zs ++ [x])) w
     = (Ret (IO_double Scalar [nth 0 zs 0]), w)
  /\ at_ (IO_double Array (zs ++ [x])) (2 ^ 29) = le_split 8 x.
Proof.
  intros Hlen.
  assert (Hsize : size (IO_double Array (zs ++ [x])) = 2 ^ 29 + 1).
  { unfold size, _dataSize.
    change (dataRaw (IO_double Array (zs ++ [x]))) with (doubles_raw (zs ++ [x])).
    change (sizeof (io_elem (IO_double Array (zs ++ [x])))) with 8.
    rewrite doubles_raw_length, length_app. simpl (List.length [x]).
    replace (Z.of_nat (8 * (List.length zs + 1))) with ((2 ^ 29 + 1) * 8) by lia.
    apply Z.div_mul. lia. }
  split; [exact Hsize|]. split; [|split].
  - rewrite getFunction_At. unfold At_func, bind at 1, ret at 1.
    rewrite (At_getFunction_run "" (2 ^ 29) (fun input => ret input)
               (IO_double Array (zs ++ [x])) w (IO_double Array (zs ++ [x])) w eq_refl).
    change (io_elem (IO_double Array (zs ++ [x]))) with T_double. cbv iota.
    rewrite Hsize.
    replace (2 ^ 29 + 1 <=? 2 ^ 29) with false by reflexivity.
    replace (uint (8 * 2 ^ 29)) with 0 by reflexivity.
    replace (uint (8 * uint (2 ^ 29 + 1))) with 8 by reflexivity.
    reflexivity.
  - replace 0 with (uint (8 * 0)) at 1 by reflexivity.
    replace 8 with (uint (8 * uint (0 + 1))) at 2 by reflexivity.
    rewrite At_identity_extracts.
    + simpl (Z.to_nat 0). destruct zs; [simpl in Hlen; lia | reflexivity].
    + rewrite length_app. simpl (List.length [x]). lia.
    + lia.
  - unfold at_.
    change (dataRaw (IO_double Array (zs ++ [x]))) with (doubles_raw (zs ++ [x])).
    replace (Z.to_nat (8 * 2 ^ 29)) with (8 * List.length zs)%nat by lia.
    rewrite skipn_doubles_raw.
    rewrite skipn_app, Nat.sub_diag, skipn_all. simpl app. simpl skipn.
    change (doubles_raw [x]) with (le_split 8 x ++ []).
    apply firstn_double.
Qed.

(** C9, at component 2^29 of an array of 2^29 + 1 doubles (2^29 times 0.0,
    then 1.0) and no argument function.  The array has size 2^29 + 1, so
    getFunction accepts the component; the byte offsets [8 * 2^29] and
    [8 * (2^29 + 1)] wrap to 0 and 8 in [unsigned] arithmetic; the closure
    returns 0.0, the first double of its input, while the component
    asked for is 1.0. *)
Theorem At_component_offset_wraps :
  size long_array = 2 ^ 29 + 1
  /\ getFunction 0 0 None (At "" None (2 ^ 29)) long_array fresh_world
     = (Ret (At_lambda (fun input => ret input) 0 8), fresh_world)
  /\ At_lambda (fun input => ret input) 0 8 long_array fresh_world
     = (Ret (IO_double Scalar [0]), fresh_world)
  /\ at_ long_array (2 ^ 29) = le_split 8 one_bits
  /\ dataRaw (IO_double Scalar [0]) <> le_split 8 one_bits.
Proof.
  assert (Hlen : Z.of_nat (List.length (repeat 0 (Z.to_nat (2 ^ 29)))) = 2 ^ 29).
  { rewrite repeat_length. apply Z2Nat.id. lia. }
  destruct (At_offsets_wrap (repeat 0 (Z.to_nat (2 ^ 29))) one_bits fresh_world Hlen)
    as (Hsize & Hget & Hcall & Hat).
  rewrite nth_repeat in Hcall.
  assert (Hne : dataRaw (IO_double Scalar [0]) <> le_split 8 one_bits)
    by (vm_compute; discriminate).
  exact (conj Hsize (conj Hget (conj Hcall (conj Hat Hne)))).
Qed.

(** ** GradFeVariableFn *)

Lemma on_identical_mesh_class fevar sample :
  on_identical_mesh fevar sample = true ->
  dynamic_cast_FEMCoordinate sample = None
  /\ exists node, dynamic_cast_MeshCoordinate sample
                  = Some (mesh_addr (feMesh fevar), node).
Proof.
  unfold on_identical_mesh, dynamic_cast_MeshCoordinate, dynamic_cast_FEMCoordinate.
  destruct (io_class sample) as [|m i xi|o i]; try discriminate.
  intros H. apply Z.eqb_eq in H. subst o. split; [reflexivity|]. now exists i.
Qed.

(** Reaching the probe for a plain global coordinate. *)
Lemma Grad_getFunction_falls_through dbg hdr fevar sample :
  on_parent_mesh fevar sample = false ->
  on_identical_mesh fevar sample = false ->
  GradFeVariableFn_getFunction dbg hdr fevar sample =
    match dynamic_cast_IO_double sample with
    | Some iodouble =>
        if negb (size iodouble =? dim fevar)
        then throw (Grad_dim_mismatch hdr (size iodouble) (dim fevar))
        else ret (Grad_lambda_global dbg hdr fevar)
    | None => throw (Grad_incompatible hdr)
    end.
Proof.
  unfold on_parent_mesh, on_identical_mesh, GradFeVariableFn_getFunction.
  intros Hfem Hmesh.
  destruct (dynamic_cast_FEMCoordinate sample) as [[[m i] xi]|].
  - rewrite Hfem.
    destruct (dynamic_cast_MeshCoordinate sample) as [[o j]|]; [now rewrite Hmesh | reflexivity].
  - destruct (dynamic_cast_MeshCoordinate sample) as [[o j]|]; [now rewrite Hmesh | reflexivity].
Qed.

Lemma last_index {A} (els : list A) (el : A) :
  Z.of_nat (List.length (els ++ [el])) < 2 ^ 32 ->
  index_ (els ++ [el]) (uint (uint (Z.of_nat (List.length (els ++ [el]))) - 1))
  = Some el.
Proof.
  intros Hlen. rewrite length_app in *. simpl List.length in *.
  assert (H1 : uint (Z.of_nat (List.length els + 1)) = Z.of_nat (List.length els) + 1)
    by (unfold uint; rewrite Z.mod_small; lia).
  rewrite H1.
  assert (H2 : uint (Z.of_nat (List.length els) + 1 - 1) = Z.of_nat (List.length els))
    by (unfold uint; rewrite Z.mod_small; lia).
  rewrite H2. unfold index_. rewrite length_app. simpl List.length.
  replace ((0 <=? Z.of_nat (List.length els))
           && (Z.of_nat (List.length els) <? Z.of_nat (List.length els + 1)))
    with true by (symmetry; rewrite andb_true_iff, Z.leb_le, Z.ltb_lt; lia).
  rewrite Nat2Z.id, nth_error_app2, Nat.sub_diag by lia. reflexivity.
Qed.

(** C4.  For a sample input that is a MeshCoordinate on the field's own
    mesh, getFunction returns the vertex closure.  Called on a vertex
    [node] whose incidence list is [els ++ [el]] (an IArray, shorter than
    2^32), the closure asks the store for the elements of [node], maps the
    vertex into the last element [el] of the list, and returns the
    derivatives interpolated in [el]: the elements before [el] have no
    part in the result, and a repeated call returns the same output. *)
Theorem Grad_vertex_uses_last_element hs us dbg hdr fevar sample w0 :
  on_identical_mesh fevar sample = true ->
  getFunction hs us dbg (GradFeVariableFn hdr fevar) sample w0
  = (Ret (Grad_lambda_MeshCoordinate dbg fevar), w0)
  /\ forall object node et it raw els el w,
       nodeElements (feMesh fevar) node = els ++ [el] ->
       Z.of_nat (List.length (els ++ [el])) < 2 ^ 32 ->
       let input := mkIO (MeshCoordinate object node) et it raw in
       let vtx := vertex (feMesh fevar) node in
       let xi := coordGlobalToLocal (feMesh fevar) el vtx in
       let out := Grad_output fevar (interpolateDerivativesToElLocalCoord fevar el xi) in
       Grad_lambda_MeshCoordinate dbg fevar input w
       = (Ret out,
          logged [FeVariable_InterpolateDerivativesToElLocalCoord el xi;
                  FeMesh_CoordGlobalToLocal el vtx;
                  Mesh_GetVertex node;
                  FeMesh_GetNodeElements node] w)
       /\ forall w', fst (Grad_lambda_MeshCoordinate dbg fevar input w') = Ret out.
Proof.
  intros Hmesh. split.
  - destruct (on_identical_mesh_class fevar sample Hmesh) as [Hfem [node Hcast]].
    simpl. unfold GradFeVariableFn_getFunction. rewrite Hfem, Hcast.
    now rewrite Z.eqb_refl.
  - intros object node et it raw els el w Hels Hlen. cbv zeta.
    assert (Hrun : forall w1,
               Grad_lambda_MeshCoordinate dbg fevar (mkIO (MeshCoordinate object node) et it raw) w1
               = (Ret (Grad_output fevar
                         (interpolateDerivativesToElLocalCoord fevar el
                            (coordGlobalToLocal (feMesh fevar) el (vertex (feMesh fevar) node)))),
                  logged [FeVariable_InterpolateDerivativesToElLocalCoord el
                            (coordGlobalToLocal (feMesh fevar) el (vertex (feMesh fevar) node));
                          FeMesh_CoordGlobalToLocal el (vertex (feMesh fevar) node);
                          Mesh_GetVertex node;
                          FeMesh_GetNodeElements node] w1)).
    { intros w1.
      cbv [Grad_lambda_MeshCoordinate debug_dynamic_cast dynamic_cast_MeshCoordinate
           bind ret call io_class snd].
      rewrite Hels, (last_index els el Hlen). reflexivity. }
    split; [apply Hrun|]. intros w'. now rewrite Hrun.
Qed.

Lemma Grad_vertex_uses_last_element_witness :
  Grad_lambda_MeshCoordinate None sample_field
    (mkIO (MeshCoordinate 100 4) T_double Vector (doubles_raw [4; 0])) fresh_world
  = (Ret (IO_double Tensor [1; 1]),
     logged [FeVariable_InterpolateDerivativesToElLocalCoord 1 (doubles_raw [4; 0]);
             FeMesh_CoordGlobalToLocal 1 (doubles_raw [4; 0]);
             Mesh_GetVertex 4;
             FeMesh_GetNodeElements 4] fresh_world).
Proof.
  exact (proj1 (proj2 (Grad_vertex_uses_last_element 0 0 None "" sample_field
                         (mkIO (MeshCoordinate 100 4) T_double Vector (doubles_raw [4; 0]))
                         fresh_world eq_refl)
                 100 4 T_double Vector (doubles_raw [4; 0]) [0] 1 fresh_world
                 eq_refl ltac:(vm_compute; reflexivity))).
Defined.

(** C5.  Let the sample input be a global coordinate: a double object
    that is neither a FEMCoordinate on the parent mesh nor a MeshCoordinate
    on the field's mesh (a plain [IO_double] is one).  If its size differs
    from the dimensionality of the field, getFunction itself throws
    std::runtime_error, with a message that states both sizes, and no call
    into the store (interpolation, point location) has been made. *)
Theorem Grad_global_dimension_checked hs us dbg hdr fevar sample w :
  on_parent_mesh fevar sample = false ->
  on_identical_mesh fevar sample = false ->
  io_elem sample = T_double ->
  size sample <> dim fevar ->
  getFunction hs us dbg (GradFeVariableFn hdr fevar) sample w
  = (Throw (Grad_dim_mismatch hdr (size sample) (dim fevar)), w)
  /\ (exists m, Grad_dim_mismatch hdr (size sample) (dim fevar) = runtime_error m)
  /\ states (size sample) (Grad_dim_mismatch hdr (size sample) (dim fevar))
  /\ states (dim fevar) (Grad_dim_mismatch hdr (size sample) (dim fevar))
  /\ calls (snd (getFunction hs us dbg (GradFeVariableFn hdr fevar) sample w)) = calls w.
Proof.
  intros Hfem Hmesh Hdouble Hsize.
  assert (Hrun : getFunction hs us dbg (GradFeVariableFn hdr fevar) sample w
                 = (Throw (Grad_dim_mismatch hdr (size sample) (dim fevar)), w)).
  { simpl. rewrite (Grad_getFunction_falls_through dbg hdr fevar sample Hfem Hmesh).
    unfold dynamic_cast_IO_double. rewrite Hdouble.
    apply Z.eqb_neq in Hsize. now rewrite Hsize. }
  rewrite Hrun. repeat split.
  - eexists. reflexivity.
  - unfold states. simpl. auto.
  - unfold states. simpl. auto 10.
Qed.

Lemma Grad_global_dimension_checked_witness :
  getFunction 0 0 None (GradFeVariableFn "" sample_field) (IO_double Vector [1; 2; 3]) fresh_world
  = (Throw (Grad_dim_mismatch "" 3 2), fresh_world).
Proof.
  exact (proj1 (Grad_global_dimension_checked 0 0 None "" sample_field
                  (IO_double Vector [1; 2; 3]) fresh_world
                  eq_refl eq_refl eq_refl ltac:(vm_compute; discriminate))).
Defined.

(** C6.  Let the sample input be a global coordinate of the field's
    dimensionality; getFunction returns the closure for global
    coordinates.  Called on a double object, the closure asks the store to
    locate the point and interpolate.  When the status is LOCAL or SHADOW
    it returns the interpolated derivatives; on every other status it
    throws std::range_error, whose message ends in the text that the
    location is probably outside the local domain. *)
Theorem Grad_global_point_location hs us dbg hdr fevar sample w0 :
  on_parent_mesh fevar sample = false ->
  on_identical_mesh fevar sample = false ->
  io_elem sample = T_double ->
  size sample = dim fevar ->
  getFunction hs us dbg (GradFeVariableFn hdr fevar) sample w0
  = (Ret (Grad_lambda_global dbg hdr fevar), w0)
  /\ forall input w retval data,
       io_elem input = T_double ->
       interpolateDerivativesAt fevar (dataRaw input) = (retval, data) ->
       let w1 := logged [FeVariable_InterpolateDerivativesAt (dataRaw input)] w in
       (retval = LOCAL \/ retval = SHADOW ->
        Grad_lambda_global dbg hdr fevar input w = (Ret (Grad_output fevar data), w1))
       /\ (retval <> LOCAL -> retval <> SHADOW ->
           Grad_lambda_global dbg hdr fevar input w = (Throw (Grad_out_of_domain hdr input), w1)
           /\ (exists m, Grad_out_of_domain hdr input = range_error m)
           /\ last (what (Grad_out_of_domain hdr input)) (Txt "")
              = Txt (") does not appear to be valid." ++ nl
                     ++ "Location is probably outside local domain.")).
Proof.
  intros Hfem Hmesh Hdouble Hsize. split.
  - simpl. rewrite (Grad_getFunction_falls_through dbg hdr fevar sample Hfem Hmesh).
    unfold dynamic_cast_IO_double. rewrite Hdouble.
    apply Z.eqb_eq in Hsize. now rewrite Hsize.
  - intros input w retval data Hin Hloc. cbv zeta.
    assert (Hrun : Grad_lambda_global dbg hdr fevar input w
                   = if negb (InterpolationResult_eqb retval LOCAL
                              || InterpolationResult_eqb retval SHADOW)
                     then (Throw (Grad_out_of_domain hdr input),
                           logged [FeVariable_InterpolateDerivativesAt (dataRaw input)] w)
                     else (Ret (Grad_output fevar data),
                           logged [FeVariable_InterpolateDerivativesAt (dataRaw input)] w)).
    { cbv [Grad_lambda_global debug_dynamic_cast dynamic_cast_IO_double bind ret call].
      rewrite Hin, Hloc.
      destruct (negb (InterpolationResult_eqb retval LOCAL
                      || InterpolationResult_eqb retval SHADOW)); reflexivity. }
    rewrite Hrun. split.
    + intros [-> | ->]; reflexivity.
    + intros Hl Hs. destruct retval as [| |code]; try congruence.
      cbn [InterpolationResult_eqb orb negb].
      split; [reflexivity|]. split; [eexists; reflexivity|].
      unfold Grad_out_of_domain, what.
      rewrite !app_comm_cons. apply last_last.
Qed.

Lemma Grad_global_point_location_witness :
  Grad_lambda_global None "" sample_field (IO_double Vector [1; 2]) fresh_world
  = (Ret (IO_double Tensor [1; 2]),
     logged [FeVariable_InterpolateDerivativesAt (doubles_raw [1; 2])] fresh_world)
  /\ Grad_lambda_global None "" sample_field (IO_double Vector [255; 2]) fresh_world
     = (Throw (Grad_out_of_domain "" (IO_double Vector [255; 2])),
        logged [FeVariable_InterpolateDerivativesAt (doubles_raw [255; 2])] fresh_world).
Proof.
  pose proof (proj2 (Grad_global_point_location 0 0 None "" sample_field
                       (IO_double Vector [1; 2]) fresh_world
                       eq_refl eq_refl eq_refl eq_refl)) as H.
  split.
  - apply (proj1 (H (IO_double Vector [1; 2]) fresh_world LOCAL (doubles_raw [1; 2])
                    eq_refl eq_refl)).
    now left.
  - apply (proj2 (H (IO_double Vector [255; 2]) fresh_world (OUTSIDE 3) []
                    eq_refl eq_refl)); discriminate.
Defined.

(** C10.  A sample input that is none of a FEMCoordinate on the parent
    mesh, a MeshCoordinate on the field's mesh, or a double object makes
    getFunction itself throw std::invalid_argument; and constructing the
    node on an object that is not an FeVariable throws
    std::invalid_argument from the constructor. *)
Theorem Grad_rejects_unsupported_input hs us dbg hdr fevar sample w :
  on_parent_mesh fevar sample = false ->
  on_identical_mesh fevar sample = false ->
  dynamic_cast_IO_double sample = None ->
  getFunction hs us dbg (GradFeVariableFn hdr fevar) sample w
  = (Throw (invalid_argument
              [Txt hdr;
               Txt "'GradFeVariableFn' does not appear to be compatible with provided input type."]),
     w)
  /\ forall type,
       GradFeVariableFn_new hdr (Stg_Other type)
       = Throw (invalid_argument
                  [Txt hdr;
                   Txt "Provided variable does not appear to be of 'MeshVariable' type."]).
Proof.
  intros Hfem Hmesh Hdouble. split; [|reflexivity].
  simpl. rewrite (Grad_getFunction_falls_through dbg hdr fevar sample Hfem Hmesh).
  now rewrite Hdouble.
Qed.

Lemma Grad_rejects_unsupported_input_witness :
  getFunction 0 0 None (GradFeVariableFn "" sample_field)
              (mkIO PlainIO T_int Scalar (le_split 4 7)) fresh_world
  = (Throw (Grad_incompatible ""), fresh_world).
Proof.
  exact (proj1 (Grad_rejects_unsupported_input 0 0 None "" sample_field
                  (mkIO PlainIO T_int Scalar (le_split 4 7)) fresh_world
                  eq_refl eq_refl eq_refl)).
Defined.

(** ** Validation happens in getFunction only *)

Lemma At_getFunction_closure hdr k g sample w c w1 :
  At_getFunction hdr k g sample w = (Ret c, w1) ->
  exists first last, c = At_lambda g first last.
Proof.
  unfold At_getFunction, bind.
  destruct (g sample w) as [[out|e|] w2]; try discriminate.
  destruct (dynamic_cast_IO_double out) as [funcio|]; [|discriminate].
  destruct (size funcio <=? k); [discriminate|].
  unfold ret. intros H. injection H as <- _. eauto.
Qed.

(** The lambda of [At] throws only what [_func] throws. *)
Lemma At_lambda_throws g first last input w e w1 :
  At_lambda g first last input w = (Throw e, w1) ->
  g input w = (Throw e, w1).
Proof.
  unfold At_lambda, bind.
  destruct (g input w) as [[io|e'|] w2]; try discriminate.
  - destruct (byte_range (dataRaw io) first last); discriminate.
  - trivial.
Qed.

Lemma At_lambda_identity_total first last input w :
  (exists out, At_lambda (fun i => ret i) first last input w = (Ret out, w))
  \/ At_lambda (fun i => ret i) first last input w = (Undefined, w).
Proof.
  unfold At_lambda, bind, ret.
  destruct (byte_range (dataRaw input) first last); eauto.
Qed.

(** The lambda of [SafeMaths] throws what [_func] throws, or one of its
    own two std::runtime_error. *)
Lemma SafeMaths_lambda_throws hs us hdr g input w e w1 :
  SafeMaths_lambda hs us hdr g input w = (Throw e, w1) ->
  validation_error e = false \/ exists w2, g input w2 = (Throw e, w1).
Proof.
  unfold SafeMaths_lambda, bind at 1, feholdexcept.
  destruct (hs =? 0) eqn:Ehs.
  - simpl. unfold bind at 1.
    destruct (g input _) as [[out|e'|] w2] eqn:Eg.
    + unfold bind at 1, fetestexcept at 1.
      destruct (negb (_ =? 0)).
      * unfold bind at 1. rewrite ss_if_raised_run.
        unfold bind at 1. rewrite ss_if_raised_run.
        unfold bind at 1. rewrite ss_if_raised_run.
        unfold bind at 1. rewrite ss_if_raised_run.
        unfold bind, feupdateenv.
        destruct (us =? 0) eqn:Eus; simpl.
        -- unfold throw. intros H. injection H as <- _. left. reflexivity.
        -- rewrite Eus. simpl. unfold throw. intros H. injection H as <- _.
           left. reflexivity.
      * unfold bind, feupdateenv.
        destruct (us =? 0) eqn:Eus; simpl.
        -- unfold ret. discriminate.
        -- rewrite Eus. simpl. unfold throw. intros H. injection H as <- _.
           left. reflexivity.
    + intros H. injection H as <- <-. right. eauto.
    + discriminate.
  - simpl. rewrite Ehs. simpl. unfold throw. intros H. injection H as <- _.
    left. reflexivity.
Qed.

Lemma Grad_getFunction_closure dbg hdr fevar sample w c w1 :
  GradFeVariableFn_getFunction dbg hdr fevar sample w = (Ret c, w1) ->
  (c = Grad_lambda_FEMCoordinate dbg fevar
   /\ dynamic_cast_FEMCoordinate sample <> None)
  \/ (c = Grad_lambda_MeshCoordinate dbg fevar
      /\ dynamic_cast_MeshCoordinate sample <> None)
  \/ (c = Grad_lambda_global dbg hdr fevar
      /\ dynamic_cast_IO_double sample <> None).
Proof.
  unfold GradFeVariableFn_getFunction.
  destruct (dynamic_cast_IO_double sample) as [io|] eqn:Edouble;
    destruct (dynamic_cast_MeshCoordinate sample) as [[o j]|] eqn:Emesh;
    destruct (dynamic_cast_FEMCoordinate sample) as [[[m i] xi]|] eqn:Efem;
    repeat match goal with
      | |- context [if ?b then _ else _] => destruct b
      end;
    unfold ret, throw; intros H; try discriminate;
    injection H as <- _;
    solve [ left; split; [reflexivity|discriminate]
          | right; left; split; [reflexivity|discriminate]
          | right; right; split; [reflexivity|discriminate] ].
Qed.

(** Objects of one type and shape answer the casts alike. *)
Lemma same_type_shape_casts sample input :
  same_type_shape sample input = true ->
  (dynamic_cast_FEMCoordinate sample <> None ->
   dynamic_cast_FEMCoordinate input <> None)
  /\ (dynamic_cast_MeshCoordinate sample <> None ->
      dynamic_cast_MeshCoordinate input <> None)
  /\ (dynamic_cast_IO_double sample <> None ->
      dynamic_cast_IO_double input <> None).
Proof.
  unfold same_type_shape. rewrite !andb_true_iff. intros [[[Hc He] _] _].
  unfold dynamic_cast_FEMCoordinate, dynamic_cast_MeshCoordinate, dynamic_cast_IO_double.
  destruct (io_class sample), (io_class input); try discriminate;
    destruct (io_elem sample), (io_elem input); try discriminate;
    repeat split; intros H; solve [discriminate | exact H | now elim H].
Qed.

(** On an input of the sample's type, the lambdas of [GradFeVariableFn]
    throw std::range_error only. *)
Lemma Grad_lambda_throws dbg hdr fevar sample c input w e w1 :
  (c = Grad_lambda_FEMCoordinate dbg fevar
   /\ dynamic_cast_FEMCoordinate sample <> None)
  \/ (c = Grad_lambda_MeshCoordinate dbg fevar
      /\ dynamic_cast_MeshCoordinate sample <> None)
  \/ (c = Grad_lambda_global dbg hdr fevar
      /\ dynamic_cast_IO_double sample <> None) ->
  same_type_shape sample input = true ->
  c input w = (Throw e, w1) ->
  validation_error e = false.
Proof.
  intros Hc Hsame.
  destruct (same_type_shape_casts sample input Hsame) as (Hfem & Hmesh & Hdouble).
  destruct Hc as [[-> Hs] | [[-> Hs] | [-> Hs]]].
  - cbv [Grad_lambda_FEMCoordinate debug_dynamic_cast bind ret call undefined].
    destruct (dynamic_cast_FEMCoordinate input) as [[[m i] xi]|];
      [discriminate | now elim (Hfem Hs)].
  - cbv [Grad_lambda_MeshCoordinate debug_dynamic_cast bind ret call undefined].
    destruct (dynamic_cast_MeshCoordinate input) as [[o i]|]; [|now elim (Hmesh Hs)].
    cbv [snd]. destruct (index_ _ _); discriminate.
  - cbv [Grad_lambda_global debug_dynamic_cast bind ret call undefined throw].
    destruct (dynamic_cast_IO_double input) as [io|]; [|now elim (Hdouble Hs)].
    destruct (interpolateDerivativesAt fevar (dataRaw io)) as [retval data].
    destruct (negb _); [|discriminate].
    intros H. injection H as <- _. reflexivity.
Qed.

(** From [Hget : getFunction (At hdr None k) sample w = (Ret c, w1)]: the
    closure [c] is the lambda of [At] over the identity. *)
Ltac At_identity_closure Hget :=
  rewrite getFunction_At in Hget;
  unfold At_func, bind at 1, ret at 1 in Hget;
  let first := fresh "first" in
  let last := fresh "last" in
  destruct (At_getFunction_closure _ _ _ _ _ _ _ Hget) as (first & last & ->).

(** A closure built by getFunction, called on an input of the type and
    shape of the sample input, throws no error of type or shape. *)
Lemma closure_throws_no_validation_error hs us dbg fn :
  quiet_leaves fn ->
  forall sample w c w1, getFunction hs us dbg fn sample w = (Ret c, w1) ->
  forall input, same_type_shape sample input = true ->
  forall w2 e w3, c input w2 = (Throw e, w3) ->
  validation_error e = false.
Proof.
  induction 1 as [getFn Hleaf | hdr k | hdr fn k Hq IH | hdr fn Hq IH | hdr fevar];
    intros sample w c w1 Hget input Hsame w2 e w3 Hcall.
  - exact (Hleaf sample w c w1 Hget input Hsame w2 e w3 Hcall).
  - At_identity_closure Hget.
    apply At_lambda_throws in Hcall. discriminate.
  - rewrite getFunction_At in Hget. unfold At_func, bind at 1 in Hget.
    destruct (getFunction hs us dbg fn sample w) as [[g|e'|] w'] eqn:Eg; try discriminate.
    destruct (At_getFunction_closure _ _ _ _ _ _ _ Hget) as (first & last & ->).
    apply At_lambda_throws in Hcall.
    exact (IH sample w g w' Eg input Hsame w2 e w3 Hcall).
  - rewrite getFunction_SafeMaths in Hget.
    destruct (getFunction hs us dbg fn sample w) as [[g|e'|] w'] eqn:Eg; try discriminate.
    injection Hget as <- <-.
    destruct (SafeMaths_lambda_throws _ _ _ _ _ _ _ _ Hcall) as [Hv | [w4 Hg]]; [exact Hv|].
    exact (IH sample w g w' Eg input Hsame w4 e w3 Hg).
  - simpl in Hget. apply Grad_getFunction_closure in Hget.
    exact (Grad_lambda_throws dbg hdr fevar sample c input w2 e w3 Hget Hsame Hcall).
Qed.

(** C7.  Validation is done by getFunction, and by it alone.
    (1) A closure returned by the getFunction of any node (over leaves whose
    closures, on such inputs, throw no error of type or shape themselves),
    called any number of times on inputs of the type and shape of the
    sample input, never throws one of the errors of type or shape.
    (2) The closure of [At] checks nothing: without an argument function
    it throws nothing at all, on any input.
    (3) The closure keeps the byte offsets fixed by getFunction: on later
    inputs of the validated type and shape it returns their [k]-th double
    (offsets within 32 bits).
    (4) On an input whose shape has changed so that component [k] no
    longer exists, the old closure still throws nothing, while a fresh
    getFunction on that input throws the out-of-range error: the new
    shape is only validated by calling getFunction again. *)
Theorem closures_validate_once hs us dbg :
  (forall fn, quiet_leaves fn ->
     forall sample w c w1, getFunction hs us dbg fn sample w = (Ret c, w1) ->
     forall inputs, Forall (fun input => same_type_shape sample input = true) inputs ->
     forall w2,
       Forall (fun r => forall e, r = Throw e -> validation_error e = false)
              (fst (eval_all c inputs w2)))
  /\ (forall hdr k sample w c w1,
        getFunction hs us dbg (At hdr None k) sample w = (Ret c, w1) ->
        forall input w2,
          (exists out, c input w2 = (Ret out, w2)) \/ c input w2 = (Undefined, w2))
  /\ (forall hdr k t l w c w1,
        0 <= k -> 8 * (k + 1) < 2 ^ 32 ->
        getFunction hs us dbg (At hdr None k) (IO_double t l) w = (Ret c, w1) ->
        forall l' w2,
          same_type_shape (IO_double t l) (IO_double t l') = true ->
          c (IO_double t l') w2 = (Ret (IO_double Scalar [nth (Z.to_nat k) l' 0]), w2))
  /\ (forall hdr k sample w c w1,
        getFunction hs us dbg (At hdr None k) sample w = (Ret c, w1) ->
        forall input w2,
          io_elem input = T_double -> size input <= k ->
          (forall e, fst (c input w2) <> Throw e)
          /\ getFunction hs us dbg (At hdr None k) input w2
             = (Throw (At_out_of_range hdr k (size input)), w2)).
Proof.
  split; [|split; [|split]].
  - intros fn Hq sample w c w1 Hget inputs Hsame.
    induction Hsame as [|input rest Hinput Hrest IH]; intros w2; [constructor|].
    simpl. destruct (c input w2) as [r w3] eqn:Ecall.
    specialize (IH w3). destruct (eval_all c rest w3) as [rs w4].
    simpl in IH |- *. constructor; [|exact IH].
    intros e ->.
    exact (closure_throws_no_validation_error hs us dbg fn Hq sample w c w1 Hget
             input Hinput w2 e w3 Ecall).
  - intros hdr k sample w c w1 Hget input w2.
    At_identity_closure Hget.
    apply At_lambda_identity_total.
  - intros hdr k t l w c w1 Hk Hfit Hget l' w2 Hsame.
    rewrite getFunction_At in Hget. unfold At_func, bind at 1, ret at 1 in Hget.
    rewrite (At_getFunction_run hdr k (fun input => ret input) (IO_double t l) w
               (IO_double t l) w eq_refl) in Hget.
    change (io_elem (IO_double t l)) with T_double in Hget. cbv iota in Hget.
    destruct (size (IO_double t l) <=? k) eqn:Esize; [discriminate|].
    injection Hget as <- _.
    apply Z.leb_gt in Esize.
    unfold same_type_shape in Hsame.
    rewrite !andb_true_iff in Hsame. destruct Hsame as [_ Hlen].
    apply Z.eqb_eq in Hlen.
    change (dataRaw (IO_double t l)) with (doubles_raw l) in Hlen.
    change (dataRaw (IO_double t l')) with (doubles_raw l') in Hlen.
    rewrite !doubles_raw_length in Hlen.
    unfold size, _dataSize in Esize.
    change (dataRaw (IO_double t l)) with (doubles_raw l) in Esize.
    change (sizeof (io_elem (IO_double t l))) with 8 in Esize.
    rewrite doubles_raw_length in Esize.
    replace (Z.of_nat (8 * List.length l)) with (Z.of_nat (List.length l) * 8) in Esize by lia.
    rewrite Z.div_mul in Esize by lia.
    apply At_identity_extracts; lia.
  - intros hdr k sample w c w1 Hget input w2 Hdouble Hsize. split.
    + At_identity_closure Hget.
      intros e He.
      destruct (At_lambda_identity_total first last input w2) as [[out Hr] | Hr];
        rewrite Hr in He; discriminate.
    + rewrite getFunction_At. unfold At_func, bind at 1, ret at 1.
      rewrite (At_getFunction_run hdr k (fun i => ret i) input w2 input w2 eq_refl).
      rewrite Hdouble. apply Z.leb_le in Hsize. now rewrite Hsize.
Qed.

Lemma closures_validate_once_witness :
  Forall (fun r => forall e, r = Throw e -> validation_error e = false)
         (fst (eval_all (At_lambda (fun input => ret input) 8 16)
                        [IO_double Vector [1; 2; 3]; IO_double Vector [4; 5; 6]]
                        fresh_world))
  /\ At_lambda (fun input => ret input) 8 16 (IO_double Vector [4; 5; 6]) fresh_world
     = (Ret (IO_double Scalar [5]), fresh_world).
Proof.
  split.
  - exact (proj1 (closures_validate_once 0 0 None) (At "" None 1) (quiet_At_input "" 1)
             (IO_double Vector [10; 20; 30]) fresh_world
             (At_lambda (fun input => ret input) 8 16) fresh_world eq_refl
             [IO_double Vector [1; 2; 3]; IO_double Vector [4; 5; 6]]
             ltac:(repeat constructor)
             fresh_world).
  - exact (proj1 (proj2 (proj2 (closures_validate_once 0 0 None))) EmptyString 1 Vector [10; 20; 30]
             fresh_world (At_lambda (fun input => ret input) 8 16) fresh_world
             ltac:(lia) ltac:(lia) eq_refl [4; 5; 6] fresh_world eq_refl).
Defined.

(** ** The Stokes solver's inner method *)

Lemma method_of_key_recognized key :
  Stokes.method_of_key key <> None
  <-> In key ["mg"; "lu"; "mumps"; "superludist"; "superlu"]%string.
Proof.
  unfold Stokes.method_of_key. simpl In.
  destruct (String.eqb_spec key "mg"); [subst; split; [auto | discriminate]|].
  destruct (String.eqb_spec key "mumps"); [subst; split; [auto | discriminate]|].
  destruct (String.eqb_spec key "superludist"); [subst; split; [auto 6 | discriminate]|].
  destruct (String.eqb_spec key "superlu"); [subst; split; [auto 6 | discriminate]|].
  destruct (String.eqb_spec key "lu"); [subst; split; [auto | discriminate]|].
  split; [congruence|].
  intros [Hk|[Hk|[Hk|[Hk|[Hk|[]]]]]]; congruence.
Qed.

(** C8.  Configuring the inner method with a name that is not recognized,
    or with a serial-only method (lu, superlu) in a run of more than one
    process, ends in an error at once: the configuration yields no solver,
    and a run that configures and then solves stops at the error, before
    any solve.  A configuration that succeeds has attempted no solve
    either.  The recognized names are mg (multigrid), lu and superlu
    (serial direct), mumps and superludist (parallel direct). *)
Theorem Stokes_configuration_errors_fatal nProcs solve_type s :
  (Stokes.method_of_key solve_type = None ->
     Stokes.set_inner_method nProcs solve_type s = inl (Stokes.InvalidMethod solve_type)
     /\ Stokes.configure_and_solve nProcs solve_type s
        = inl (Stokes.InvalidMethod solve_type))
  /\ (forall m, Stokes.method_of_key solve_type = Some m ->
        Stokes.serial_only m = true -> 1 < nProcs ->
        Stokes.set_inner_method nProcs solve_type s = inl (Stokes.SerialOnly m nProcs)
        /\ Stokes.configure_and_solve nProcs solve_type s
           = inl (Stokes.SerialOnly m nProcs))
  /\ (forall s1, Stokes.set_inner_method nProcs solve_type s = inr s1 ->
        Stokes.solves s1 = Stokes.solves s)
  /\ (forall m, Stokes.serial_only m = true <-> m = Stokes.lu \/ m = Stokes.superlu)
  /\ (Stokes.method_of_key solve_type <> None
      <-> In solve_type ["mg"; "lu"; "mumps"; "superludist"; "superlu"]%string)
  /\ (Stokes.method_of_key "mg" = Some Stokes.mg
      /\ Stokes.kind Stokes.mg = Stokes.Multigrid)
  /\ (Stokes.method_of_key "lu" = Some Stokes.lu
      /\ Stokes.kind Stokes.lu = Stokes.SerialDirect)
  /\ (Stokes.method_of_key "superlu" = Some Stokes.superlu
      /\ Stokes.kind Stokes.superlu = Stokes.SerialDirect)
  /\ (Stokes.method_of_key "mumps" = Some Stokes.mumps
      /\ Stokes.kind Stokes.mumps = Stokes.ParallelDirect)
  /\ (Stokes.method_of_key "superludist" = Some Stokes.superludist
      /\ Stokes.kind Stokes.superludist = Stokes.ParallelDirect).
Proof.
  split; [|split; [|split; [|split; [|split]]]].
  - intros Hkey. unfold Stokes.configure_and_solve, Stokes.set_inner_method.
    rewrite Hkey. split; reflexivity.
  - intros m Hkey Hserial Hpar.
    unfold Stokes.configure_and_solve, Stokes.set_inner_method.
    apply Z.ltb_lt in Hpar. rewrite Hkey, Hserial, Hpar. split; reflexivity.
  - intros s1. unfold Stokes.set_inner_method.
    destruct (Stokes.method_of_key solve_type) as [m|]; [|discriminate].
    destruct (Stokes.serial_only m && (1 <? nProcs)); [discriminate|].
    intros H. injection H as <-. reflexivity.
  - intros m. destruct m; simpl; split; intros H; try discriminate; auto;
      destruct H; discriminate.
  - apply method_of_key_recognized.
  - repeat split.
Qed.

Lemma Stokes_configuration_errors_fatal_witness :
  Stokes.configure_and_solve 4 "lu" (Stokes.mkSolver Stokes.mg 0)
  = inl (Stokes.SerialOnly Stokes.lu 4)
  /\ Stokes.configure_and_solve 1 "gmres" (Stokes.mkSolver Stokes.mg 0)
     = inl (Stokes.InvalidMethod "gmres").
Proof.
  split.
  - exact (proj2 (proj1 (proj2 (Stokes_configuration_errors_fatal
                                  4 "lu" (Stokes.mkSolver Stokes.mg 0)))
                    Stokes.lu eq_refl eq_refl ltac:(lia))).
  - exact (proj2 (proj1 (Stokes_configuration_errors_fatal
                           1 "gmres" (Stokes.mkSolver Stokes.mg 0)) eq_refl)).
Defined.

(** * Further properties of the function nodes *)

(** ** SafeMaths on an argument that raises FE_INEXACT only *)


(** ** SafeMaths: what the guard leaves behind *)

Lemma held_idempotent w : held (held w) = held w.
Proof. reflexivity. Qed.

Lemma lor_keeps_left a b : Z.land (Z.lor a b) a = a.
Proof.
  apply Z.bits_inj'. intros n _.
  rewrite Z.land_spec, Z.lor_spec.
  destruct (Z.testbit a n), (Z.testbit b n); reflexivity.
Qed.

(** Once [feholdexcept] has succeeded, an exception thrown by the argument
    function passes through the guard. *)
Lemma SafeMaths_lambda_propagates us hdr g input w e w1 :
  g input (held w) = (Throw e, w1) ->
  SafeMaths_lambda 0 us hdr g input w = (Throw e, w1).
Proof.
  intros Hg. unfold SafeMaths_lambda, bind at 1, feholdexcept. simpl.
  fold (held w). unfold bind at 1. now rewrite Hg.
Qed.

(** X1.  An exception thrown by the argument function leaves the guard
    past both [feupdateenv] calls: the guard throws the same exception and
    the world is the one the argument function left, started from the
    held environment.  When the argument function does not touch the
    environment itself, the caller therefore finds the flags cleared and
    non-stop mode installed: an environment that had a flag raised or a
    trap enabled before the call is not restored. *)
Theorem SafeMaths_exception_skips_restore us hdr g input w e w1 :
  g input (held w) = (Throw e, w1) ->
  SafeMaths_lambda 0 us hdr g input w = (Throw e, w1)
  /\ (fpenv w1 = fpenv (held w) ->
      excepts (fpenv (snd (SafeMaths_lambda 0 us hdr g input w))) = 0
      /\ traps (fpenv (snd (SafeMaths_lambda 0 us hdr g input w))) = 0
      /\ (excepts (fpenv w) <> 0 \/ traps (fpenv w) <> 0 ->
          fpenv (snd (SafeMaths_lambda 0 us hdr g input w)) <> fpenv w)).
Proof.
  intros Hg. rewrite (SafeMaths_lambda_propagates us hdr g input w e w1 Hg).
  split; [reflexivity|]. simpl. intros ->. simpl.
  repeat split. intros Hdirty Heq.
  destruct (fpenv w) as [ex r t]. simpl in *. injection Heq as Hex Ht.
  destruct Hdirty; congruence.
Qed.

Lemma SafeMaths_exception_skips_restore_witness :
  SafeMaths_lambda 0 0 "" throws_out_of_range (IO_double Scalar [0]) dirty_world
  = (Throw (range_error [Txt "out of range"]), held dirty_world)
  /\ fpenv (snd (SafeMaths_lambda 0 0 "" throws_out_of_range
                   (IO_double Scalar [0]) dirty_world))
     <> fpenv dirty_world.
Proof.
  destruct (SafeMaths_exception_skips_restore 0 "" throws_out_of_range
              (IO_double Scalar [0]) dirty_world
              (range_error [Txt "out of range"]) (held dirty_world) eq_refl)
    as [Hrun Henv].
  split; [exact Hrun|].
  apply (proj2 (proj2 (Henv eq_refl))). left. vm_compute. discriminate.
Defined.

(** X2.  When [feholdexcept] fails, the guard throws "Unknown error"
    without calling the argument function: the outcome does not depend on
    it and the world is untouched.  When [feholdexcept] succeeds and
    [feupdateenv] fails, the guard throws "Unknown error" whatever the
    argument function returned and whichever flags it raised: the value is
    dropped and so is the message that names the faults. *)
Theorem SafeMaths_fenv_call_failure hs us hdr g input w :
  (hs <> 0 ->
     SafeMaths_lambda hs us hdr g input w = (Throw (SafeMaths_unknown hdr), w))
  /\ (hs = 0 -> us <> 0 ->
      forall out w1, g input (held w) = (Ret out, w1) ->
        fst (SafeMaths_lambda hs us hdr g input w) = Throw (SafeMaths_unknown hdr)).
Proof.
  split.
  - intros Hhs. apply Z.eqb_neq in Hhs.
    unfold SafeMaths_lambda, bind at 1, feholdexcept. rewrite Hhs. simpl.
    now rewrite Hhs.
  - intros -> Hus out w1 Hg. apply Z.eqb_neq in Hus.
    unfold SafeMaths_lambda, bind at 1, feholdexcept. simpl.
    fold (held w). unfold bind at 1. rewrite Hg.
    unfold bind at 1, fetestexcept at 1.
    destruct (negb (_ =? 0)).
    + unfold bind at 1. rewrite ss_if_raised_run.
      unfold bind at 1. rewrite ss_if_raised_run.
      unfold bind at 1. rewrite ss_if_raised_run.
      unfold bind at 1. rewrite ss_if_raised_run.
      unfold bind, feupdateenv. rewrite Hus. simpl. now rewrite Hus.
    + unfold bind, feupdateenv. rewrite Hus. simpl. now rewrite Hus.
Qed.

Lemma SafeMaths_fenv_call_failure_witness :
  SafeMaths_lambda 1 0 "" divides_by_zero (IO_double Scalar [0]) dirty_world
  = (Throw (SafeMaths_unknown ""), dirty_world)
  /\ fst (SafeMaths_lambda 0 1 "" divides_by_zero (IO_double Scalar [0]) dirty_world)
     = Throw (SafeMaths_unknown "").
Proof.
  split.
  - exact (proj1 (SafeMaths_fenv_call_failure 1 0 "" divides_by_zero
                    (IO_double Scalar [0]) dirty_world) ltac:(discriminate)).
  - exact (proj2 (SafeMaths_fenv_call_failure 0 1 "" divides_by_zero
                    (IO_double Scalar [0]) dirty_world)
             eq_refl ltac:(discriminate) (IO_double Scalar [0]) _ eq_refl).
Defined.

(** One of the four guarded flags is raised as soon as the guarded mask
    is hit. *)
Lemma guarded_flag_raised raised :
  Z.land raised SafeMaths_guarded <> 0 ->
  Z.land raised FE_DIVBYZERO <> 0 \/ Z.land raised FE_INVALID <> 0
  \/ Z.land raised FE_OVERFLOW <> 0 \/ Z.land raised FE_UNDERFLOW <> 0.
Proof.
  unfold SafeMaths_guarded. rewrite !Z.land_lor_distr_r. intros H.
  destruct (Z.eq_dec (Z.land raised FE_DIVBYZERO) 0) as [Hd|]; [|tauto].
  destruct (Z.eq_dec (Z.land raised FE_INVALID) 0) as [Hi|]; [|tauto].
  destruct (Z.eq_dec (Z.land raised FE_OVERFLOW) 0) as [Ho|]; [|tauto].
  destruct (Z.eq_dec (Z.land raised FE_UNDERFLOW) 0) as [Hu|]; [|tauto].
  rewrite Hd, Hi, Ho, Hu in H. now elim H.
Qed.

Lemma fault_names_spec raised :
  (In (Txt "   Divide by zero") (fault_names raised)
   <-> Z.land raised FE_DIVBYZERO <> 0)
  /\ (In (Txt "   Invalid domain") (fault_names raised)
      <-> Z.land raised FE_INVALID <> 0)
  /\ (In (Txt "   Value overflow") (fault_names raised)
      <-> Z.land raised FE_OVERFLOW <> 0)
  /\ (In (Txt "   Value underflow") (fault_names raised)
      <-> Z.land raised FE_UNDERFLOW <> 0).
Proof.
  unfold fault_names.
  destruct (Z.eqb_spec (Z.land raised FE_DIVBYZERO) 0) as [Hd|Hd];
    destruct (Z.eqb_spec (Z.land raised FE_INVALID) 0) as [Hi|Hi];
    destruct (Z.eqb_spec (Z.land raised FE_OVERFLOW) 0) as [Ho|Ho];
    destruct (Z.eqb_spec (Z.land raised FE_UNDERFLOW) 0) as [Hu|Hu];
    simpl; repeat split; intros H;
    repeat match goal with
      | H : _ \/ _ |- _ => destruct H
      | H : Txt _ = Txt _ |- _ => discriminate H
      | H : False |- _ => elim H
      end;
    solve [assumption | congruence | auto 6].
Qed.

(** X3.  The error the guard throws for a fault is a std::runtime_error
    whose text is the header, the banner, and then the names of the flags
    that are raised, each of the four names being there exactly when its
    flag is raised; at least one name is there. *)
Theorem SafeMaths_names_exactly_the_raised_flags hdr g input w out w1 e w2 :
  g input (held w) = (Ret out, w1) ->
  SafeMaths_lambda 0 0 hdr g input w = (Throw e, w2) ->
  exists names,
    e = runtime_error (Txt hdr :: SafeMaths_banner :: names)
    /\ names <> []
    /\ (In (Txt "   Divide by zero") names
        <-> Z.land (excepts (fpenv w1)) FE_DIVBYZERO <> 0)
    /\ (In (Txt "   Invalid domain") names
        <-> Z.land (excepts (fpenv w1)) FE_INVALID <> 0)
    /\ (In (Txt "   Value overflow") names
        <-> Z.land (excepts (fpenv w1)) FE_OVERFLOW <> 0)
    /\ (In (Txt "   Value underflow") names
        <-> Z.land (excepts (fpenv w1)) FE_UNDERFLOW <> 0).
Proof.
  intros Hg. rewrite (SafeMaths_lambda_run hdr g input w out w1 Hg).
  destruct (Z.eqb_spec (Z.land (excepts (fpenv w1)) SafeMaths_guarded) 0) as [|Hfired];
    [discriminate|].
  intros H. injection H as <- _.
  exists (fault_names (excepts (fpenv w1))).
  split; [reflexivity|]. split; [|apply fault_names_spec].
  destruct (fault_names_spec (excepts (fpenv w1))) as (Hd & Hi & Ho & Hu).
  intros Hnil. rewrite Hnil in Hd, Hi, Ho, Hu. simpl in *.
  destruct (guarded_flag_raised _ Hfired) as [H|[H|[H|H]]]; tauto.
Qed.

Lemma SafeMaths_names_exactly_the_raised_flags_witness :
  exists names,
    runtime_error [Txt ""; SafeMaths_banner; Txt "   Value overflow"]
    = runtime_error (Txt "" :: SafeMaths_banner :: names)
    /\ names <> []
    /\ (In (Txt "   Divide by zero") names <-> Z.land 40 FE_DIVBYZERO <> 0)
    /\ (In (Txt "   Invalid domain") names <-> Z.land 40 FE_INVALID <> 0)
    /\ (In (Txt "   Value overflow") names <-> Z.land 40 FE_OVERFLOW <> 0)
    /\ (In (Txt "   Value underflow") names <-> Z.land 40 FE_UNDERFLOW <> 0).
Proof.
  exact (SafeMaths_names_exactly_the_raised_flags "" overflows (IO_double Scalar [0])
           fresh_world (IO_double Scalar [0])
           (mkWorld (mkFenv 40 3072 0) [])
           (runtime_error [Txt ""; SafeMaths_banner; Txt "   Value overflow"])
           (mkWorld (mkFenv 40 0 0) [])
           eq_refl eq_refl).
Defined.

(** X4.  Whenever the argument function returns (and the fenv calls
    succeed), by a value or by the error that names the faults, and no
    flag it raised has its trap enabled in the environment from before
    the call (so that [feupdateenv] returns), the guard leaves the
    rounding mode and the enabled traps as they were before the call,
    whatever the argument function did to them, and the raised flags are
    those raised before the call together with those the argument
    function raised: no flag raised before the call is lost. *)
Theorem SafeMaths_environment_after hdr g input w out w1 :
  g input (held w) = (Ret out, w1) ->
  Z.land (excepts (fpenv w1)) (traps (fpenv w)) = 0 ->
  let w2 := snd (SafeMaths_lambda 0 0 hdr g input w) in
  rounding (fpenv w2) = rounding (fpenv w)
  /\ traps (fpenv w2) = traps (fpenv w)
  /\ excepts (fpenv w2) = Z.lor (excepts (fpenv w)) (excepts (fpenv w1))
  /\ Z.land (excepts (fpenv w2)) (excepts (fpenv w)) = excepts (fpenv w)
  /\ calls w2 = calls w1.
Proof.
  intros Hg _. cbv zeta.
  rewrite (SafeMaths_lambda_run hdr g input w out w1 Hg).
  destruct (Z.land (excepts (fpenv w1)) SafeMaths_guarded =? 0); simpl;
    repeat split; apply lor_keeps_left.
Qed.

Lemma SafeMaths_environment_after_witness :
  fpenv (snd (SafeMaths_lambda 0 0 "" overflows (IO_double Scalar [0]) trapping_world))
  = mkFenv (Z.lor FE_INVALID (Z.lor FE_OVERFLOW FE_INEXACT)) 0 FE_DIVBYZERO.
Proof.
  pose proof (SafeMaths_environment_after "" overflows (IO_double Scalar [0])
                trapping_world (IO_double Scalar [0])
                (mkWorld (mkFenv 40 3072 0) []) eq_refl eq_refl) as H.
  cbv zeta in H. destruct H as (Hr & Ht & He & _ & _).
  destruct (fpenv (snd (SafeMaths_lambda 0 0 "" overflows (IO_double Scalar [0])
                          trapping_world)))
    as [ex r t].
  simpl in Hr, Ht, He. now subst.
Defined.

(** X5.  A guard inside a guard.  When the argument function returns with
    no flag raised, the two guards return its value and leave the
    environment as it was before the call, as one guard does.  When the
    argument function raises a guarded flag, the inner guard throws its
    error, which leaves the outer guard before its [feupdateenv]: the
    environment that the outer guard saved is never installed again, so
    the flags raised before the call are gone, the traps are disabled,
    and only the flags of the fault are raised. *)
Theorem SafeMaths_nested hdr1 hdr2 g input w out w1 :
  g input (held w) = (Ret out, w1) ->
  (excepts (fpenv w1) = 0 ->
     SafeMaths_lambda 0 0 hdr1 (SafeMaths_lambda 0 0 hdr2 g) input w
     = (Ret out, set_fpenv (fpenv w) w1))
  /\ (Z.land (excepts (fpenv w1)) SafeMaths_guarded <> 0 ->
      SafeMaths_lambda 0 0 hdr1 (SafeMaths_lambda 0 0 hdr2 g) input w
      = (Throw (runtime_error
                  (Txt hdr2 :: SafeMaths_banner :: fault_names (excepts (fpenv w1)))),
         set_fpenv (mkFenv (excepts (fpenv w1)) (rounding (fpenv w)) 0) w1)).
Proof.
  intros Hg.
  assert (Hinner : g input (held (held w)) = (Ret out, w1))
    by now rewrite held_idempotent.
  split.
  - intros Hquiet.
    assert (Hin : SafeMaths_lambda 0 0 hdr2 g input (held w)
                  = (Ret out, updated (held w) w1)).
    { rewrite (SafeMaths_lambda_run hdr2 g input (held w) out w1 Hinner).
      now rewrite Hquiet. }
    rewrite (SafeMaths_lambda_run hdr1 _ input w out _ Hin).
    assert (Hex : excepts (fpenv (updated (held w) w1)) = 0)
      by (unfold updated; simpl; exact Hquiet).
    rewrite Hex. simpl.
    unfold updated at 1. rewrite Hex, Z.lor_0_r.
    unfold updated, set_fpenv. simpl.
    destruct (fpenv w); reflexivity.
  - intros Hfired.
    rewrite (SafeMaths_lambda_propagates 0 hdr1 _ input w
               (runtime_error
                  (Txt hdr2 :: SafeMaths_banner :: fault_names (excepts (fpenv w1))))
               (updated (held w) w1)).
    + reflexivity.
    + exact (SafeMaths_fault_reported hdr2 g input (held w) out w1 Hinner Hfired).
Qed.

Lemma SafeMaths_nested_witness :
  SafeMaths_lambda 0 0 "outer" (SafeMaths_lambda 0 0 "inner" overflows)
                   (IO_double Scalar [0]) dirty_world
  = (Throw (runtime_error [Txt "inner"; SafeMaths_banner; Txt "   Value overflow"]),
     mkWorld (mkFenv 40 0 0) []).
Proof.
  exact (proj2 (SafeMaths_nested "outer" "inner" overflows (IO_double Scalar [0])
                  dirty_world (IO_double Scalar [0])
                  (mkWorld (mkFenv 40 3072 0) []) eq_refl)
           ltac:(vm_compute; discriminate)).
Defined.

(** ** At: what the closure reads and what it returns *)

(** The closure that [Fn::At::getFunction] returns, with its offsets. *)
Lemma At_getFunction_offsets hs us dbg hdr _fn k sample w c w1 :
  getFunction hs us dbg (At hdr _fn k) sample w = (Ret c, w1) ->
  exists g w2 out,
    At_func hs us dbg _fn sample w = (Ret g, w2)
    /\ g sample w2 = (Ret out, w1)
    /\ io_elem out = T_double
    /\ k < size out
    /\ c = At_lambda g (uint (8 * k)) (uint (8 * uint (k + 1))).
Proof.
  rewrite getFunction_At. unfold bind at 1.
  destruct (At_func hs us dbg _fn sample w) as [[g|e|] w2] eqn:Efn; try discriminate.
  destruct (g sample w2) as [[out|e|] w3] eqn:Eg.
  - rewrite (At_getFunction_run hdr k g sample w2 out w3 Eg).
    destruct (io_elem out) eqn:Eelem; try discriminate.
    destruct (size out <=? k) eqn:Esize; [discriminate|].
    intros H. injection H as <- <-. apply Z.leb_gt in Esize.
    exists g, w2, out. auto.
  - unfold At_getFunction, bind. rewrite Eg. discriminate.
  - unfold At_getFunction, bind. rewrite Eg. discriminate.
Qed.

Lemma byte_range_length p first last bytes :
  byte_range p first last = Some bytes ->
  first <= last /\ Z.of_nat (List.length bytes) = last - first.
Proof.
  unfold byte_range.
  destruct ((0 <=? first) && (first <=? last) && (last <=? Z.of_nat (List.length p)))
    eqn:E; [|discriminate].
  rewrite !andb_true_iff, !Z.leb_le in E. destruct E as [[H0 Hfl] Hlen].
  intros H. injection H as <-. split; [exact Hfl|].
  rewrite length_firstn, length_skipn. lia.
Qed.

(** What the lambda of [At] returns, it has copied out of the object that
    [_func] returned. *)
Lemma At_lambda_returns g first last input w out w1 :
  At_lambda g first last input w = (Ret out, w1) ->
  exists io bytes,
    g input w = (Ret io, w1)
    /\ byte_range (dataRaw io) first last = Some bytes
    /\ out = mkIO PlainIO T_double Scalar bytes.
Proof.
  unfold At_lambda, bind.
  destruct (g input w) as [[io|e|] w2]; try discriminate.
  destruct (byte_range (dataRaw io) first last) as [bytes|] eqn:E; [|discriminate].
  unfold ret. intros H. injection H as <- <-. eauto.
Qed.

(** X6.  Without an argument function, and for a component whose byte
    offsets fit 32 bits, the closure looks at nothing but the raw bytes of
    its input: when the input holds at least [8 * (k + 1)] bytes, it
    returns the eight bytes of component [k] as a scalar double, whatever
    the class, element type and [IOType] of the input; when the input is
    shorter, the copy leaves the buffer and has no defined behaviour: no
    exception is thrown for it. *)
Theorem At_closure_reads_raw_bytes hs us dbg hdr k sample w c w1 :
  0 <= k -> 8 * (k + 1) < 2 ^ 32 ->
  getFunction hs us dbg (At hdr None k) sample w = (Ret c, w1) ->
  forall input w2,
    (8 * (k + 1) <= Z.of_nat (List.length (dataRaw input)) ->
       c input w2 = (Ret (mkIO PlainIO T_double Scalar (at_ input k)), w2))
    /\ (Z.of_nat (List.length (dataRaw input)) < 8 * (k + 1) ->
       c input w2 = (Undefined, w2)).
Proof.
  intros Hk Hfit Hget input w2.
  destruct (At_getFunction_offsets _ _ _ _ _ _ _ _ _ _ Hget)
    as (g & w3 & out & Hfn & _ & _ & _ & ->).
  unfold At_func, ret in Hfn. injection Hfn as <- _.
  assert (H1 : uint (8 * k) = 8 * k) by (unfold uint; apply Z.mod_small; lia).
  assert (H2 : uint (k + 1) = k + 1) by (unfold uint; apply Z.mod_small; lia).
  assert (H3 : uint (8 * (k + 1)) = 8 * (k + 1)) by (unfold uint; apply Z.mod_small; lia).
  rewrite H1, H2, H3. unfold At_lambda, bind, ret, byte_range, at_.
  split; intros Hlen.
  - replace ((0 <=? 8 * k) && (8 * k <=? 8 * (k + 1))
             && (8 * (k + 1) <=? Z.of_nat (List.length (dataRaw input)))) with true
      by (symmetry; rewrite !andb_true_iff, !Z.leb_le; lia).
    replace (Z.to_nat (8 * (k + 1) - 8 * k)) with 8%nat by lia. reflexivity.
  - replace (8 * (k + 1) <=? Z.of_nat (List.length (dataRaw input))) with false
      by (symmetry; apply Z.leb_gt; lia).
    rewrite andb_false_r. reflexivity.
Qed.

Lemma At_closure_reads_raw_bytes_witness :
  At_lambda (fun input => ret input) 8 16
            (mkIO (MeshCoordinate 100 4) T_int Array (flat_map (le_split 4) [1; 2; 3; 4]))
            fresh_world
  = (Ret (mkIO PlainIO T_double Scalar (flat_map (le_split 4) [3; 4])), fresh_world)
  /\ At_lambda (fun input => ret input) 8 16 (IO_double Scalar [7]) fresh_world
     = (Undefined, fresh_world).
Proof.
  pose proof (At_closure_reads_raw_bytes 0 0 None "" 1 (IO_double Vector [10; 20; 30])
                fresh_world (At_lambda (fun input => ret input) 8 16) fresh_world
                ltac:(lia) ltac:(lia) eq_refl) as H.
  split.
  - apply (proj1 (H (mkIO (MeshCoordinate 100 4) T_int Array
                          (flat_map (le_split 4) [1; 2; 3; 4])) fresh_world)).
    vm_compute. discriminate.
  - apply (proj2 (H (IO_double Scalar [7]) fresh_world)). vm_compute. reflexivity.
Defined.

(** X7.  Whatever the argument function and the input, an object that
    the closure of [At] (with a component that is an [unsigned]) returns
    is a plain scalar double object that holds exactly one double. *)
Theorem At_returns_one_double hs us dbg hdr _fn k sample w c w1 :
  0 <= k < 2 ^ 32 ->
  getFunction hs us dbg (At hdr _fn k) sample w = (Ret c, w1) ->
  forall input w2 out w3,
    c input w2 = (Ret out, w3) ->
    io_class out = PlainIO /\ io_elem out = T_double /\ io_iotype out = Scalar
    /\ List.length (dataRaw out) = 8%nat /\ size out = 1.
Proof.
  intros Hk Hget input w2 out w3 Hcall.
  destruct (At_getFunction_offsets _ _ _ _ _ _ _ _ _ _ Hget)
    as (g & w4 & o & _ & _ & _ & _ & ->).
  destruct (At_lambda_returns _ _ _ _ _ _ _ Hcall) as (io & bytes & _ & Hrange & ->).
  destruct (byte_range_length _ _ _ _ Hrange) as [Hle Hlen].
  rewrite (At_offsets_width k Hk Hle) in Hlen.
  assert (Hn : List.length bytes = 8%nat) by lia.
  unfold size, _dataSize. simpl. rewrite Hn. repeat split.
Qed.

Lemma At_returns_one_double_witness :
  size (mkIO PlainIO T_double Scalar (doubles_raw [20])) = 1.
Proof.
  exact (proj2 (proj2 (proj2 (proj2
           (At_returns_one_double 0 0 None "" None 1 (IO_double Vector [10; 20; 30])
              fresh_world (At_lambda (fun input => ret input) 8 16) fresh_world
              ltac:(lia) eq_refl
              (IO_double Vector [10; 20; 30]) fresh_world
              (mkIO PlainIO T_double Scalar (doubles_raw [20])) fresh_world
              eq_refl))))).
Defined.

(** The lambda of [At] with the offsets of an [unsigned] component returns
    eight bytes. *)
Lemma At_lambda_one_double g k input w out w1 :
  0 <= k < 2 ^ 32 ->
  At_lambda g (uint (8 * k)) (uint (8 * uint (k + 1))) input w = (Ret out, w1) ->
  exists bytes,
    out = mkIO PlainIO T_double Scalar bytes /\ List.length bytes = 8%nat.
Proof.
  intros Hk Hcall.
  destruct (At_lambda_returns _ _ _ _ _ _ _ Hcall) as (io & bytes & _ & Hrange & ->).
  destruct (byte_range_length _ _ _ _ Hrange) as [Hle Hlen].
  rewrite (At_offsets_width k Hk Hle) in Hlen.
  exists bytes. split; [reflexivity | lia].
Qed.

(** Copying the one double of an object that holds one double gives the
    object back. *)
Lemma At_lambda_first_of_one g input w :
  (forall out w1, g input w = (Ret out, w1) ->
     exists bytes, out = mkIO PlainIO T_double Scalar bytes
                   /\ List.length bytes = 8%nat) ->
  At_lambda g 0 8 input w = g input w.
Proof.
  intros Hone. unfold At_lambda, bind.
  destruct (g input w) as [[out|e|] w1] eqn:Eg; try reflexivity.
  destruct (Hone out w1 eq_refl) as (bytes & -> & Hlen).
  change (dataRaw (mkIO PlainIO T_double Scalar bytes)) with bytes.
  unfold byte_range. rewrite Hlen.
  change ((0 <=? 0) && (0 <=? 8) && (8 <=? Z.of_nat 8)) with true. cbv iota.
  change (Z.to_nat (8 - 0)) with 8%nat. change (Z.to_nat 0) with 0%nat.
  rewrite skipn_O, firstn_all2 by lia. reflexivity.
Qed.

(** X8.  [At] applied to [At].  The inner closure returns one double, so
    the outer getFunction accepts component 0 only: for [k >= 1] it throws
    the out-of-range error that states [k] and the size 1.  For [k = 0]
    the closure it returns behaves on every input as the inner closure
    does: same value, same exception, same world. *)
Theorem At_of_At hs us dbg h1 h2 _fn j k sample w c w1 out w2 :
  0 <= j < 2 ^ 32 ->
  getFunction hs us dbg (At h1 _fn j) sample w = (Ret c, w1) ->
  c sample w1 = (Ret out, w2) ->
  (k = 0 ->
     exists c',
       getFunction hs us dbg (At h2 (Some (At h1 _fn j)) k) sample w = (Ret c', w2)
       /\ forall input w3, c' input w3 = c input w3)
  /\ (1 <= k ->
      getFunction hs us dbg (At h2 (Some (At h1 _fn j)) k) sample w
      = (Throw (At_out_of_range h2 k 1), w2)).
Proof.
  intros Hj Hget Hout.
  destruct (At_getFunction_offsets _ _ _ _ _ _ _ _ _ _ Hget)
    as (g & w4 & o & _ & _ & _ & _ & Hc).
  assert (Hone : forall input w3 out' w5, c input w3 = (Ret out', w5) ->
                   exists bytes, out' = mkIO PlainIO T_double Scalar bytes
                                 /\ List.length bytes = 8%nat).
  { intros input w3 out' w5 Hcall. rewrite Hc in Hcall.
    exact (At_lambda_one_double g j input w3 out' w5 Hj Hcall). }
  destruct (Hone sample w1 out w2 Hout) as (bytes & Hbytes & Hlen).
  assert (Hsize : size out = 1).
  { rewrite Hbytes. unfold size, _dataSize. simpl. now rewrite Hlen. }
  assert (Hrun : getFunction hs us dbg (At h2 (Some (At h1 _fn j)) k) sample w
                 = if 1 <=? k
                   then (Throw (At_out_of_range h2 k 1), w2)
                   else (Ret (At_lambda c (uint (8 * k)) (uint (8 * uint (k + 1)))), w2)).
  { rewrite getFunction_At. unfold bind at 1, At_func. rewrite Hget.
    rewrite (At_getFunction_run h2 k c sample w1 out w2 Hout).
    rewrite Hsize, Hbytes. reflexivity. }
  rewrite Hrun. split.
  - intros ->. simpl (1 <=? 0). cbv iota.
    exists (At_lambda c 0 8). split; [reflexivity|].
    intros input w3. apply At_lambda_first_of_one.
    intros out' w5. apply Hone.
  - intros Hk. apply Z.leb_le in Hk. now rewrite Hk.
Qed.

Lemma At_of_At_witness :
  getFunction 0 0 None (At "outer" (Some (At "inner" None 1)) 1)
              (IO_double Vector [10; 20; 30]) fresh_world
  = (Throw (At_out_of_range "outer" 1 1), fresh_world).
Proof.
  exact (proj2 (At_of_At 0 0 None "inner" "outer" None 1 1
                  (IO_double Vector [10; 20; 30]) fresh_world
                  (At_lambda (fun input => ret input) 8 16) fresh_world
                  (IO_double Scalar [20]) fresh_world
                  ltac:(lia) eq_refl eq_refl)
           ltac:(lia)).
Defined.

(** ** GradFeVariableFn: the dispatch and the closures *)

(** X9.  For a sample input that is a FEMCoordinate on the parent mesh of
    the field, getFunction returns the closure for local coordinates.
    Called on a FEMCoordinate, the closure makes one call into the store:
    it interpolates the derivatives in the element and at the local
    coordinate that the input carries, with no point location; the mesh
    of the input is not looked at again. *)
Theorem Grad_local_coordinate_interpolates hs us dbg hdr fevar sample w0 :
  on_parent_mesh fevar sample = true ->
  getFunction hs us dbg (GradFeVariableFn hdr fevar) sample w0
  = (Ret (Grad_lambda_FEMCoordinate dbg fevar), w0)
  /\ forall mesh index localCoord et it raw w,
       Grad_lambda_FEMCoordinate dbg fevar
         (mkIO (FEMCoordinate mesh index localCoord) et it raw) w
       = (Ret (Grad_output fevar
                 (interpolateDerivativesToElLocalCoord fevar index localCoord)),
          logged [FeVariable_InterpolateDerivativesToElLocalCoord index localCoord] w).
Proof.
  intros Hfem. split.
  - simpl. unfold GradFeVariableFn_getFunction.
    unfold on_parent_mesh in Hfem.
    destruct (dynamic_cast_FEMCoordinate sample) as [[[m i] xi]|]; [|discriminate].
    now rewrite Hfem.
  - intros mesh index localCoord et it raw w. reflexivity.
Qed.

Lemma Grad_local_coordinate_interpolates_witness :
  getFunction 0 0 None (GradFeVariableFn "" sample_field)
              (mkIO (FEMCoordinate 200 0 (doubles_raw [0; 0])) T_double Vector
                    (doubles_raw [5; 5])) fresh_world
  = (Ret (Grad_lambda_FEMCoordinate None sample_field), fresh_world).
Proof.
  exact (proj1 (Grad_local_coordinate_interpolates 0 0 None "" sample_field
                  (mkIO (FEMCoordinate 200 0 (doubles_raw [0; 0])) T_double Vector
                        (doubles_raw [5; 5])) fresh_world eq_refl)).
Defined.

(** X10.  A coordinate on another mesh is not refused for that: a
    FEMCoordinate whose mesh is not the parent mesh of the field, or a
    MeshCoordinate whose mesh is not the mesh of the field, is handed to
    the probe for global coordinates.  If it is a double object,
    getFunction returns the closure for global coordinates when its size
    is the dimensionality of the field, and throws the dimensionality
    error otherwise. *)
Theorem Grad_other_mesh_taken_as_global hs us dbg hdr fevar sample w :
  (exists mesh index localCoord,
      io_class sample = FEMCoordinate mesh index localCoord
      /\ mesh <> parentMesh (feMesh fevar))
  \/ (exists object index,
         io_class sample = MeshCoordinate object index
         /\ object <> mesh_addr (feMesh fevar)) ->
  io_elem sample = T_double ->
  getFunction hs us dbg (GradFeVariableFn hdr fevar) sample w
  = if size sample =? dim fevar
    then (Ret (Grad_lambda_global dbg hdr fevar), w)
    else (Throw (Grad_dim_mismatch hdr (size sample) (dim fevar)), w).
Proof.
  intros Hclass Hdouble. simpl.
  rewrite Grad_getFunction_falls_through.
  - unfold dynamic_cast_IO_double. rewrite Hdouble.
    destruct (size sample =? dim fevar); reflexivity.
  - unfold on_parent_mesh, dynamic_cast_FEMCoordinate.
    destruct Hclass as [(m & i & xi & -> & Hm) | (o & i & -> & _)];
      [now apply Z.eqb_neq | reflexivity].
  - unfold on_identical_mesh, dynamic_cast_MeshCoordinate.
    destruct Hclass as [(m & i & xi & -> & _) | (o & i & -> & Ho)];
      [reflexivity | now apply Z.eqb_neq].
Qed.

Lemma Grad_other_mesh_taken_as_global_witness :
  getFunction 0 0 None (GradFeVariableFn "" sample_field)
              (mkIO (FEMCoordinate 999 0 (doubles_raw [0; 0])) T_double Vector
                    (doubles_raw [5; 5])) fresh_world
  = (Ret (Grad_lambda_global None "" sample_field), fresh_world).
Proof.
  assert (Hclass :
            (exists mesh index localCoord,
                io_class (mkIO (FEMCoordinate 999 0 (doubles_raw [0; 0])) T_double Vector
                               (doubles_raw [5; 5]))
                = FEMCoordinate mesh index localCoord
                /\ mesh <> parentMesh (feMesh sample_field))
            \/ (exists object index,
                   io_class (mkIO (FEMCoordinate 999 0 (doubles_raw [0; 0])) T_double Vector
                                  (doubles_raw [5; 5]))
                   = MeshCoordinate object index
                   /\ object <> mesh_addr (feMesh sample_field))).
  { left. exists 999, 0, (doubles_raw [0; 0]). split; [reflexivity|].
    simpl. discriminate. }
  exact (Grad_other_mesh_taken_as_global 0 0 None "" sample_field
           (mkIO (FEMCoordinate 999 0 (doubles_raw [0; 0])) T_double Vector
                 (doubles_raw [5; 5])) fresh_world Hclass eq_refl).
Defined.

(** X12.  Every object that a closure of a gradient node returns is a
    plain double object whose [IOType] follows from the dimensionality of
    the field alone: a Vector for a field of dimension 1, a Tensor
    otherwise. *)
Theorem Grad_output_shape hs us dbg hdr fevar sample w c w1 :
  getFunction hs us dbg (GradFeVariableFn hdr fevar) sample w = (Ret c, w1) ->
  forall input w2 out w3,
    c input w2 = (Ret out, w3) ->
    io_class out = PlainIO /\ io_elem out = T_double
    /\ io_iotype out = (if dim fevar =? 1 then Vector else Tensor).
Proof.
  intros Hget input w2 out w3. simpl in Hget.
  destruct (Grad_getFunction_closure _ _ _ _ _ _ _ Hget) as [[-> _] | [[-> _] | [-> _]]].
  - cbv [Grad_lambda_FEMCoordinate debug_dynamic_cast bind ret call undefined throw].
    destruct (dynamic_cast_FEMCoordinate input) as [[[m i] xi]|].
    + intros H. injection H as <- _. repeat split.
    + destruct dbg; discriminate.
  - cbv [Grad_lambda_MeshCoordinate debug_dynamic_cast bind ret call undefined throw].
    destruct (dynamic_cast_MeshCoordinate input) as [[o i]|].
    + cbv [snd]. destruct (index_ _ _); [|discriminate].
      intros H. injection H as <- _. repeat split.
    + destruct dbg; discriminate.
  - cbv [Grad_lambda_global debug_dynamic_cast bind ret call undefined throw].
    destruct (dynamic_cast_IO_double input) as [io|].
    + destruct (interpolateDerivativesAt fevar (dataRaw io)) as [retval data].
      destruct (negb _); [discriminate|].
      intros H. injection H as <- _. repeat split.
    + destruct dbg; discriminate.
Qed.

Lemma Grad_output_shape_witness :
  io_iotype (IO_double Tensor [1; 2]) = Tensor.
Proof.
  exact (proj2 (proj2 (Grad_output_shape 0 0 None "" sample_field
                         (IO_double Vector [1; 2]) fresh_world
                         (Grad_lambda_global None "" sample_field) fresh_world eq_refl
                         (IO_double Vector [1; 2]) fresh_world
                         (IO_double Tensor [1; 2]) _ eq_refl))).
Defined.

(** X13.  Called on a vertex that the store gives no incident element
    for, the vertex closure reads [nbrElList[nbrElCount-1]] with
    [nbrElCount-1] wrapped to 2^32 - 1, outside of the empty list: the
    call has no defined behaviour; it is not answered by an exception,
    nor by a value.  (Whether [Mesh_GetVertex] is called before that read
    is left open by the source, so nothing is said of the calls made.) *)
Theorem Grad_vertex_without_elements dbg fevar object node et it raw w :
  nodeElements (feMesh fevar) node = [] ->
  uint (uint (Z.of_nat (List.length (nodeElements (feMesh fevar) node))) - 1)
  = 2 ^ 32 - 1
  /\ fst (Grad_lambda_MeshCoordinate dbg fevar
            (mkIO (MeshCoordinate object node) et it raw) w)
     = Undefined.
Proof.
  intros Hnone. split; [now rewrite Hnone|].
  cbv [Grad_lambda_MeshCoordinate debug_dynamic_cast dynamic_cast_MeshCoordinate
       bind ret call io_class snd].
  rewrite Hnone. reflexivity.
Qed.

Lemma Grad_vertex_without_elements_witness :
  fst (Grad_lambda_MeshCoordinate None
         (mkFeVariable 2 1 (mkFeMesh 100 200 (fun _ => []) (fun _ => []) (fun _ g => g))
                       (fun _ _ => []) (fun _ => (LOCAL, [])))
         (mkIO (MeshCoordinate 100 7) T_double Vector []) fresh_world)
  = Undefined.
Proof.
  exact (proj2 (Grad_vertex_without_elements None
                  (mkFeVariable 2 1
                     (mkFeMesh 100 200 (fun _ => []) (fun _ => []) (fun _ g => g))
                     (fun _ _ => []) (fun _ => (LOCAL, [])))
                  100 7 T_double Vector [] fresh_world eq_refl)).
Defined.

(** X14.  The std::range_error of the closure for global coordinates
    states the point: for an input of at least one double, every
    coordinate of the input is inserted into the message, after the
    header as its first piece. *)
Theorem Grad_out_of_domain_states_the_point hdr input i :
  0 <= i < size input ->
  hd (Txt "") (what (Grad_out_of_domain hdr input)) = Txt hdr
  /\ In (Dbl (at_ input i)) (what (Grad_out_of_domain hdr input)).
Proof.
  intros Hi. split; [reflexivity|].
  unfold Grad_out_of_domain, what.
  destruct (Z.eq_dec i 0) as [->|Hpos].
  - right. right. left. reflexivity.
  - right. right. right. apply in_or_app. left.
    apply in_flat_map. exists (Z.to_nat i). split.
    + apply in_seq. lia.
    + right. left. rewrite Z2Nat.id by lia. reflexivity.
Qed.

Lemma Grad_out_of_domain_states_the_point_witness :
  In (Dbl (le_split 8 2)) (what (Grad_out_of_domain "" (IO_double Vector [255; 2]))).
Proof.
  exact (proj2 (Grad_out_of_domain_states_the_point "" (IO_double Vector [255; 2]) 1
                  ltac:(vm_compute; split; [discriminate | reflexivity]))).
Defined.

(** ** At over an argument function *)

(** X15.  With an argument function, the closure of [At] calls the
    closure of the argument on its input and extracts from what that
    returns: when the argument returns an array of doubles that has a
    component [k] (byte offsets within 32 bits), the closure returns that
    component as a scalar, in the world the argument left; what the
    argument throws, the closure throws. *)
Theorem At_extracts_from_argument hs us dbg hdr fn k sample w c w1 :
  0 <= k -> 8 * (k + 1) < 2 ^ 32 ->
  getFunction hs us dbg (At hdr (Some fn) k) sample w = (Ret c, w1) ->
  exists g w2,
    getFunction hs us dbg fn sample w = (Ret g, w2)
    /\ (forall input w3 t l w4,
          g input w3 = (Ret (IO_double t l), w4) ->
          k < Z.of_nat (List.length l) ->
          c input w3 = (Ret (IO_double Scalar [nth (Z.to_nat k) l 0]), w4))
    /\ (forall input w3 e w4,
          g input w3 = (Throw e, w4) -> c input w3 = (Throw e, w4)).
Proof.
  intros Hk Hfit Hget.
  destruct (At_getFunction_offsets _ _ _ _ _ _ _ _ _ _ Hget)
    as (g & w2 & out & Hfn & _ & _ & _ & ->).
  exists g, w2. split; [exact Hfn|].
  assert (H1 : uint (8 * k) = 8 * k) by (unfold uint; apply Z.mod_small; lia).
  assert (H2 : uint (k + 1) = k + 1) by (unfold uint; apply Z.mod_small; lia).
  assert (H3 : uint (8 * (k + 1)) = 8 * (k + 1)) by (unfold uint; apply Z.mod_small; lia).
  rewrite H1, H2, H3. split.
  - intros input w3 t l w4 Hg Hlen. unfold At_lambda, bind. rewrite Hg.
    change (dataRaw (IO_double t l)) with (doubles_raw l).
    rewrite byte_range_double by lia.
    unfold ret, IO_double.
    change (doubles_raw [nth (Z.to_nat k) l 0])
      with (le_split 8 (nth (Z.to_nat k) l 0) ++ []).
    now rewrite app_nil_r.
  - intros input w3 e w4 Hg. unfold At_lambda, bind. now rewrite Hg.
Qed.

Lemma At_extracts_from_argument_witness :
  At_lambda divides_by_zero 8 16 (IO_double Vector [1; 2; 3]) fresh_world
  = (Ret (IO_double Scalar [2]), mkWorld (mkFenv FE_DIVBYZERO 0 0) []).
Proof.
  destruct (At_extracts_from_argument 0 0 None ""
              (Leaf (fun _ => ret divides_by_zero)) 1
              (IO_double Vector [10; 20; 30]) fresh_world
              (At_lambda divides_by_zero 8 16)
              (mkWorld (mkFenv FE_DIVBYZERO 0 0) [])
              ltac:(lia) ltac:(lia) eq_refl) as (g & w2 & Hfn & Hret & _).
  injection Hfn as <- _.
  exact (Hret (IO_double Vector [1; 2; 3]) fresh_world Vector [1; 2; 3]
              (mkWorld (mkFenv FE_DIVBYZERO 0 0) []) eq_refl ltac:(simpl; lia)).
Defined.
